(** * Xcode project descriptor scripts: a shallow embedding

    The repository edits the text of [project.pbxproj] with Python string
    operations and regular expressions.  This development embeds

    - [fix_xcode_project.py]: [generate_uuid], [find_swift_files],
      [is_file_in_project], [add_files_to_project] and the entry point;
    - [add_chat_to_xcode.py]: [generate_xcode_uuid],
      [add_chat_view_controller];
    - [add_file_preview.py]: [add_file_preview];
    - [add_missing_viewcontrollers.py]: [add_view_controllers];

    together with the fragments of Python they rely on: the [in] test on
    strings, [str.replace], slicing, [re.search] and [re.sub] for the
    patterns that occur in the scripts, [uuid.uuid4().hex], [os.walk] and
    the newline translation of files opened in text mode.

    A Python [str] is modelled as a list of characters.  The functions that
    edit the descriptor are given on the text in memory, from what
    [f.read()] returns to what [f.write] is handed; for
    [fix_xcode_project.py] the file itself is modelled as well
    ([read_text], [add_files_to_project_on_file]). *)

From Stdlib Require Import Ascii String.
From Stdlib Require Import List Arith Lia Bool NArith.
Import ListNotations.

(** ** Text *)

Definition text := list ascii.

Definition str (s : string) : text := list_ascii_of_string s.

Definition TAB : ascii := ascii_of_nat 9.
Definition NL : ascii := ascii_of_nat 10.
Definition CR : ascii := ascii_of_nat 13.
Definition DQ : ascii := ascii_of_nat 34.

(** [s.startswith(p)] *)
Fixpoint startswith (s p : text) {struct p} : bool :=
  match p with
  | [] => true
  | c :: p' =>
      match s with
      | [] => false
      | d :: s' => Ascii.eqb c d && startswith s' p'
      end
  end.

(** [s.endswith(p)] *)
Definition endswith (s p : text) : bool :=
  (length p <=? length s) && startswith (skipn (length s - length p) s) p.

(** [x in s] on strings: [x] occurs in [s] as a contiguous substring. *)
Fixpoint contains (s x : text) : bool :=
  startswith s x ||
  match s with
  | [] => false
  | _ :: s' => contains s' x
  end.

(** [s[a:b]] for [0 <= a], [0 <= b]; Python clamps both to [len(s)]. *)
Definition slice (s : text) (a b : nat) : text := firstn (b - a) (skipn a s).

(** ['sep'.join(parts)] *)
Fixpoint join (sep : text) (parts : list text) : text :=
  match parts with
  | [] => []
  | [p] => p
  | p :: ps => p ++ sep ++ join sep ps
  end.

(** [s.replace(old, new)]: every leftmost non-overlapping occurrence of
    [old] is replaced.  [skip] counts the characters of an occurrence that
    are still to be dropped.  For the empty [old] Python puts [new] in front
    of every character and at the end. *)
Fixpoint replace_go (old new s : text) (skip : nat) : text :=
  match s with
  | [] => []
  | c :: s' =>
      match skip with
      | S k => replace_go old new s' k
      | O =>
          if startswith s old
          then new ++ replace_go old new s' (length old - 1)
          else c :: replace_go old new s' 0
      end
  end.

Definition replace (s old new : text) : text :=
  match old with
  | [] => new ++ flat_map (fun c => c :: new) s
  | _ :: _ => replace_go old new s 0
  end.

(** ** Regular expressions

    Every pattern of the script is a sequence of literal pieces, character
    classes under a quantifier, and capture parentheses around such
    sequences.  [re] tries the alternatives of a quantifier in priority
    order (greedy: longest first; lazy: shortest first) and backtracks. *)

Inductive gmark := Op (g : nat) | Cl (g : nat).

Definition gmark_eqb (a b : gmark) : bool :=
  match a, b with
  | Op g, Op h => Nat.eqb g h
  | Cl g, Cl h => Nat.eqb g h
  | _, _ => false
  end.

Inductive atom :=
| Lit (w : text)
| Rep (cls : ascii -> bool) (lo : nat) (hi : option nat) (greedy : bool)
| GOpen (g : nat)
| GClose (g : nat).

Definition regex := list atom.

Definition marks := list (gmark * nat).

Definition cont := text -> nat -> marks -> option (nat * marks).

Definition can_take (hi : option nat) : bool :=
  match hi with
  | None => true
  | Some 0 => false
  | Some (S _) => true
  end.

Definition take_one (hi : option nat) : option nat :=
  match hi with
  | None => None
  | Some h => Some (pred h)
  end.

(** A quantified class: [lo] more characters are required, [hi] bounds how
    many may still be taken, [k] matches the rest of the pattern. *)
Fixpoint rep (cls : ascii -> bool) (greedy : bool) (k : cont)
         (lo : nat) (hi : option nat) (s : text) (i : nat) (m : marks)
  : option (nat * marks) :=
  match s with
  | c :: s' =>
      if cls c && can_take hi then
        match lo with
        | S lo' => rep cls greedy k lo' (take_one hi) s' (S i) m
        | O =>
            if greedy then
              match rep cls greedy k 0 (take_one hi) s' (S i) m with
              | Some r => Some r
              | None => k s i m
              end
            else
              match k s i m with
              | Some r => Some r
              | None => rep cls greedy k 0 (take_one hi) s' (S i) m
              end
        end
      else
        match lo with
        | O => k s i m
        | S _ => None
        end
  | [] =>
      match lo with
      | O => k s i m
      | S _ => None
      end
  end.

Fixpoint match_here (r : regex) : cont :=
  fun s i m =>
    match r with
    | [] => Some (i, m)
    | Lit w :: r' =>
        if startswith s w
        then match_here r' (skipn (length w) s) (i + length w) m
        else None
    | Rep cls lo hi greedy :: r' => rep cls greedy (match_here r') lo hi s i m
    | GOpen g :: r' => match_here r' s i ((Op g, i) :: m)
    | GClose g :: r' => match_here r' s i ((Cl g, i) :: m)
    end.

(** A match object: [m.start()], [m.end()] and the group boundaries. *)
Record rmatch := RMatch { m_start : nat; m_end : nat; m_marks : marks }.

(** [re.search]: the first position at which the pattern matches. *)
Fixpoint search_from (r : regex) (s : text) (i : nat) : option rmatch :=
  match match_here r s i [] with
  | Some (j, m) => Some (RMatch i j m)
  | None =>
      match s with
      | [] => None
      | _ :: s' => search_from r s' (S i)
      end
  end.

Definition re_search (r : regex) (content : text) : option rmatch :=
  search_from r content 0.

Fixpoint mark_pos (m : marks) (x : gmark) : nat :=
  match m with
  | [] => 0
  | (y, p) :: m' => if gmark_eqb x y then p else mark_pos m' x
  end.

(** [m.start(g)], [m.end(g)], [m.group(g)]; group 0 is the whole match. *)
Definition g_start (mt : rmatch) (g : nat) : nat :=
  match g with
  | O => m_start mt
  | _ => mark_pos (m_marks mt) (Op g)
  end.

Definition g_end (mt : rmatch) (g : nat) : nat :=
  match g with
  | O => m_end mt
  | _ => mark_pos (m_marks mt) (Cl g)
  end.

Definition group (content : text) (mt : rmatch) (g : nat) : text :=
  slice content (g_start mt g) (g_end mt g).

(** *** Character classes *)

Definition chr_in (set : string) (c : ascii) : bool :=
  existsb (Ascii.eqb c) (str set).

(** [[A-F0-9]] *)
Definition cls_hex_upper : ascii -> bool := chr_in "ABCDEF0123456789".

(** [\s] on a [str] pattern, for the code points below 256: the characters
    for which [str.isspace] holds. *)
Definition cls_space (c : ascii) : bool :=
  let n := nat_of_ascii c in
  ((9 <=? n) && (n <=? 13)) || ((28 <=? n) && (n <=? 32))
  || (n =? 133) || (n =? 160).

(** [[^x]] *)
Definition cls_not (x : string) (c : ascii) : bool := negb (chr_in x c).

(** [.] under [re.DOTALL] *)
Definition cls_any (_ : ascii) : bool := true.

(** [\d] on a [str] pattern, for the code points below 256. *)
Definition cls_digit : ascii -> bool := chr_in "0123456789".

(** [re.sub(pattern, repl, string, count)]: the leftmost non-overlapping
    matches are replaced, left to right, at most [count] of them ([None]
    for all, Python's [count=0]).  [rest] is the text from position [i] on;
    [repl] gives the replacement for a match.  After an empty match one
    character is copied before the search goes on.  [fuel] bounds the
    number of matches; the text offers at most one per position. *)
Fixpoint re_sub_go (fuel : nat) (r : regex) (repl : rmatch -> text)
         (rest : text) (i : nat) (count : option nat) : text :=
  match fuel with
  | O => rest
  | S fuel' =>
      if negb (can_take count) then rest
      else
        match search_from r rest i with
        | None => rest
        | Some m =>
            firstn (m_start m - i) rest ++ repl m
            ++ match m_end m - m_start m with
               | O =>
                   match skipn (m_start m - i) rest with
                   | [] => []
                   | c :: rest' =>
                       c :: re_sub_go fuel' r repl rest' (S (m_start m))
                              (take_one count)
                   end
               | S _ =>
                   re_sub_go fuel' r repl (skipn (m_end m - i) rest) (m_end m)
                             (take_one count)
               end
        end
  end.

Definition re_sub (r : regex) (repl : text -> rmatch -> text) (content : text)
           (count : option nat) : text :=
  re_sub_go (S (length content)) r (repl content) content 0 count.

(** ** [fix_xcode_project.py] *)

(** *** [generate_uuid]

    [uuid.uuid4()] draws 16 random bytes, reads them as a big-endian integer
    and sets the variant and version bits; [.hex] prints the integer with
    ['%032x']; the script keeps the first 24 digits, in upper case.  The
    random draw is the parameter [r] (below [2^128]). *)

Definition uuid4_int (r : N) : N :=
  let i1 := N.ldiff r (N.shiftl 0xc000 48) in
  let i2 := N.lor i1 (N.shiftl 0x8000 48) in
  let i3 := N.ldiff i2 (N.shiftl 0xf000 64) in
  N.lor i3 (N.shiftl 4 76).

Definition hex_digit (d : N) : ascii :=
  nth (N.to_nat d) (str "0123456789abcdef") "0"%char.

(** The [k] low hexadecimal digits of [n], most significant first. *)
Fixpoint hex_of (k : nat) (n : N) : text :=
  match k with
  | O => []
  | S k' => hex_digit ((n / 16 ^ N.of_nat k') mod 16) :: hex_of k' n
  end.

Definition uuid_hex (r : N) : text := hex_of 32 (uuid4_int r).

(** [str.upper] on one character; only ASCII letters are changed here. *)
Definition upper_char (c : ascii) : ascii :=
  let n := nat_of_ascii c in
  if (97 <=? n) && (n <=? 122) then ascii_of_nat (n - 32) else c.

Definition upper (s : text) : text := map upper_char s.

Definition generate_uuid (r : N) : text := upper (firstn 24 (uuid_hex r)).

(** *** [find_swift_files] *)

(** A directory as [os.walk] finds it: the names of its files and, under
    their names, the entries it takes for directories, both in listing
    order.  Such an entry is a directory, a symbolic link to a directory
    ([Link]) or a directory whose listing fails ([Unreadable]).  [os.walk]
    is called with its defaults: it lists a link among the directory names
    and does not go into it, and a listing that fails yields nothing. *)
#[warnings="-register-all"]
Inductive dir :=
| Dir (filenames : list text) (subdirs : list (text * dir))
| Link (target : dir)
| Unreadable (hidden : dir).

Definition text_eqb (a b : text) : bool :=
  (length a =? length b) && startswith a b.

(** The test of line 19 on one directory name. *)
Definition keep_dir (d : text) : bool :=
  negb (startswith d (str ".")) && negb (text_eqb d (str "Build")).

(** [os.path.relpath(os.path.join(dirpath, filename), root_dir)], where
    [below] lists the directory names from [root_dir] down to [dirpath]:
    the names joined with the separator.  File and directory names hold no
    separator and are neither empty nor [.] nor [..]. *)
Definition relpath (below : list text) (filename : text) : text :=
  join (str "/") (below ++ [filename]).

(** Lines 17-24 for the directory [d] found [below] the root: its own
    Swift files first, then those of the sub-directories line 19 keeps, in
    order.  [os.walk] visits a directory before its sub-directories and
    only descends into the names left in [dirnames]. *)
Fixpoint walk_swift (d : dir) (below : list text) : list (text * text) :=
  match d with
  | Dir filenames subdirs =>
      map (fun filename => (filename, relpath below filename))
          (filter (fun filename => endswith filename (str ".swift")) filenames)
      ++ (fix descend (l : list (text * dir)) : list (text * text) :=
            match l with
            | [] => []
            | (name, sub) :: l' =>
                if keep_dir name
                then walk_swift sub (below ++ [name]) ++ descend l'
                else descend l'
            end) subdirs
  | Link _ => []
  | Unreadable _ => []
  end.

(** The directory [os.walk] starts from: a link given as the root is
    followed. *)
Fixpoint top_dir (d : dir) : dir :=
  match d with
  | Link target => top_dir target
  | _ => d
  end.

Definition find_swift_files (root_dir : dir) : list (text * text) :=
  walk_swift (top_dir root_dir) [].

(** [os.path.basename]: what follows the last separator. *)
Fixpoint basename (p : text) : text :=
  match p with
  | [] => []
  | c :: p' =>
      if contains p' (str "/") then basename p'
      else if Ascii.eqb c "/" then p' else p
  end.

(** *** [is_file_in_project] *)

Definition is_file_in_project (pbxproj_content filename : text) : bool :=
  contains pbxproj_content filename.

(** *** [add_files_to_project] *)

(** [r'mainGroup = ([A-F0-9]{24});'] *)
Definition re_main_group : regex :=
  [ Lit (str "mainGroup = "); GOpen 1; Rep cls_hex_upper 24 (Some 24) true;
    GClose 1; Lit (str ";") ].

(** [r'/\* Sources \*/ = \{\s+isa = PBXSourcesBuildPhase;[^}]+files = \([^)]+\);'] *)
Definition re_sources_phase : regex :=
  [ Lit (str "/* Sources */ = {"); Rep cls_space 1 None true;
    Lit (str "isa = PBXSourcesBuildPhase;"); Rep (cls_not "}") 1 None true;
    Lit (str "files = ("); Rep (cls_not ")") 1 None true; Lit (str ");") ].

Definition begin_marker (section : string) : text :=
  str "/* Begin " ++ str section ++ str " section */".

Definition end_marker (section : string) : text :=
  str "/* End " ++ str section ++ str " section */".

(** [r'/\* Begin S section \*/(.*?)/\* End S section \*/'] with [re.DOTALL] *)
Definition re_section (section : string) : regex :=
  [ Lit (begin_marker section); GOpen 1; Rep cls_any 0 None false; GClose 1;
    Lit (end_marker section) ].

(** The pattern of line 93: the identifier, any characters but an opening
    brace, an opening brace, any characters but a closing brace,
    [children = (], group 1 made of any characters but a closing
    parenthesis, and [);]. *)
Definition re_group_children (main_group_id : text) : regex :=
  [ Lit main_group_id; Rep (cls_not "{") 0 None true; Lit (str "{");
    Rep (cls_not "}") 0 None true; Lit (str "children = ("); GOpen 1;
    Rep (cls_not ")") 0 None true; GClose 1; Lit (str ");") ].

(** [r'(/\* Sources \*/ = \{[^}]+files = \()([^)]+)(\);)'] *)
Definition re_sources_files : regex :=
  [ GOpen 1; Lit (str "/* Sources */ = {"); Rep (cls_not "}") 1 None true;
    Lit (str "files = ("); GClose 1; GOpen 2; Rep (cls_not ")") 1 None true;
    GClose 2; GOpen 3; Lit (str ");"); GClose 3 ].

(** The PBXFileReference record of line 64. *)
Definition file_ref_record (file_ref_id filename : text) : text :=
  [TAB; TAB] ++ file_ref_id ++ str " /* " ++ filename
  ++ str " */ = {isa = PBXFileReference; lastKnownFileType = sourcecode.swift; path = "
  ++ [DQ] ++ filename ++ [DQ] ++ str "; sourceTree = " ++ [DQ] ++ str "<group>"
  ++ [DQ] ++ str "; };".

(** The PBXBuildFile record of line 68. *)
Definition build_file_record (build_file_id filename file_ref_id : text) : text :=
  [TAB; TAB] ++ build_file_id ++ str " /* " ++ filename
  ++ str " in Sources */ = {isa = PBXBuildFile; fileRef = " ++ file_ref_id
  ++ str " /* " ++ filename ++ str " */; };".

(** The group child entry of line 98. *)
Definition child_entry (file_ref_id filename : text) : text :=
  [TAB; TAB; TAB; TAB] ++ file_ref_id ++ str " /* " ++ filename ++ str " */,".

(** The build phase entry of line 113. *)
Definition source_entry (build_file_id filename : text) : text :=
  [TAB; TAB; TAB; TAB] ++ build_file_id ++ str " /* " ++ filename
  ++ str " in Sources */,".

(** The three lists the loop of lines 55-72 fills. *)
Record pending := Pending {
  files_to_add : list (text * text * text);
  file_refs_to_add : list text;
  build_files_to_add : list text
}.

(** Lines 55-72.  [rnd k] is the [k]-th random draw of the run and [n] the
    number of draws made so far; [content] is the text read at line 35 and
    does not change during the loop. *)
Fixpoint scan (content : text) (swift_files : list (text * text))
         (rnd : nat -> N) (n : nat) : pending :=
  match swift_files with
  | [] => Pending [] [] []
  | (filename, relative_path) :: rest =>
      if negb (is_file_in_project content filename) then
        let file_ref_id := generate_uuid (rnd n) in
        let build_file_id := generate_uuid (rnd (S n)) in
        let p := scan content rest rnd (S (S n)) in
        Pending ((file_ref_id, build_file_id, filename) :: files_to_add p)
                (file_ref_record file_ref_id filename :: file_refs_to_add p)
                (build_file_record build_file_id filename file_ref_id
                   :: build_files_to_add p)
      else scan content rest rnd n
  end.

(** Lines 79-83 and 86-90: one section, one list of new records. *)
Definition add_to_section (section : string) (records : list text)
           (content : text) : text :=
  match re_search (re_section section) content with
  | Some m =>
      let new_records := join [NL] records in
      replace content (group content m 0)
              (begin_marker section ++ [NL] ++ group content m 1
                 ++ new_records ++ [NL] ++ end_marker section)
  | None => content
  end.

(** Lines 93-105. *)
Definition add_to_main_group (main_group_id : text)
           (adds : list (text * text * text)) (content : text) : text :=
  match re_search (re_group_children main_group_id) content with
  | Some m =>
      let children := group content m 1 in
      let new_children :=
        map (fun '(file_ref_id, _, filename) => child_entry file_ref_id filename)
            adds in
      let new_children_str := join [NL] new_children in
      let updated_children := children ++ [NL] ++ new_children_str in
      let old_section := group content m 0 in
      let new_section := replace old_section children updated_children in
      replace content old_section new_section
  | None => content
  end.

(** Lines 108-118. *)
Definition add_to_sources (adds : list (text * text * text)) (content : text)
  : text :=
  match re_search re_sources_files content with
  | Some m =>
      let files_list := group content m 2 in
      let new_sources :=
        map (fun '(_, build_file_id, filename) =>
               source_entry build_file_id filename) adds in
      let new_sources_str := join [NL] new_sources in
      let updated_files := files_list ++ [NL] ++ new_sources_str in
      firstn (g_start m 2) content ++ updated_files ++ skipn (g_end m 2) content
  | None => content
  end.

(** Lines 78-118: the four insertions, on the text in memory. *)
Definition mutate (main_group_id : text) (p : pending) (content : text) : text :=
  let content := add_to_section "PBXFileReference" (file_refs_to_add p) content in
  let content := add_to_section "PBXBuildFile" (build_files_to_add p) content in
  let content := add_to_main_group main_group_id (files_to_add p) content in
  add_to_sources (files_to_add p) content.

(** What the run reports on standard output before it returns. *)
Inductive outcome :=
| CouldNotFindMainGroup
| CouldNotFindSourcesBuildPhase
| NoFilesToAdd
| Added (n : nat).

(** [add_files_to_project] on the text in memory: [disk] is the text that
    [f.read()] returns at line 35, the result is the report and the text
    handed to [f.write] at line 122, the only write, or [disk] itself when
    the function returns before it.  What the file holds before and after
    is [add_files_to_project_on_file] below. *)
Definition add_files_to_project (disk : text) (swift_files : list (text * text))
           (rnd : nat -> N) : outcome * text :=
  let content := disk in
  match re_search re_main_group content with
  | None => (CouldNotFindMainGroup, disk)
  | Some main_group_match =>
      let main_group_id := group content main_group_match 1 in
      match re_search re_sources_phase content with
      | None => (CouldNotFindSourcesBuildPhase, disk)
      | Some _ =>
          let p := scan content swift_files rnd 0 in
          match files_to_add p with
          | [] => (NoFilesToAdd, disk)
          | _ :: _ =>
              (Added (length (files_to_add p)), mutate main_group_id p content)
          end
      end
  end.

(** *** Text mode, lines 34 and 121

    Both [open] calls take the default newline handling.  Reading
    translates a carriage return followed by a line feed, and a carriage
    return alone, to one line feed.  Writing stores a line feed as
    [os.linesep], the line feed itself on the system the paths of the
    script belong to.  Characters stand for themselves: the encoding is
    left out. *)
Fixpoint read_text (stored : text) : text :=
  match stored with
  | [] => []
  | c :: rest =>
      if Ascii.eqb c CR then
        match rest with
        | d :: rest' =>
            if Ascii.eqb d NL then NL :: read_text rest'
            else NL :: read_text rest
        | [] => [NL]
        end
      else c :: read_text rest
  end.

Definition write_text (content : text) : text := content.

(** [add_files_to_project] with its file: [stored] holds the characters of
    the file at [pbxproj_path] when the function is called, the result is
    the report and the characters the file holds when it returns. *)
Definition add_files_to_project_on_file
           (stored : text) (swift_files : list (text * text)) (rnd : nat -> N)
  : outcome * text :=
  match add_files_to_project (read_text stored) swift_files rnd with
  | (Added n, content) => (Added n, write_text content)
  | (report, _) => (report, stored)
  end.

(** ** [add_chat_to_xcode.py] *)

(** Lines 7-9, the same function under another name. *)
Definition generate_xcode_uuid (r : N) : text := upper (firstn 24 (uuid_hex r)).

(** The pattern of line 24: the PBXFileReference record of
    [FileNode.swift] up to the end of its line, as group 1. *)
Definition file_ref_pattern : regex :=
  [ GOpen 1;
    Lit (str "1D1A2B732C60A1230001A234 /* FileNode.swift */ = {isa = PBXFileReference");
    Rep (cls_not "}") 1 None true; Lit (str "};" ++ [NL]); GClose 1 ].

(** The pattern of line 34. *)
Definition build_file_pattern : regex :=
  [ GOpen 1;
    Lit (str "1D1A2B722C60A1230001A234 /* FileNode.swift in Sources */ = {isa = PBXBuildFile");
    Rep (cls_not "}") 1 None true; Lit (str "};" ++ [NL]); GClose 1 ].

(** The pattern of line 44: the head of the Features group up to the
    first child. *)
Definition features_pattern : regex :=
  [ GOpen 1; Lit (str "/* Features */ = {"); Rep cls_space 1 None true;
    Lit (str "isa = PBXGroup;"); Rep cls_space 1 None true;
    Lit (str "children = ("); Rep cls_space 1 None true; GClose 1 ].

(** The pattern of line 58. *)
Definition groups_end_pattern : regex :=
  [ GOpen 1; Lit (str "/* End PBXGroup section */"); GClose 1 ].

(** The pattern of line 75: the sources build phase up to the end of what
    follows [files = (] without a closing parenthesis. *)
Definition sources_pattern : regex :=
  [ GOpen 1; Lit (str "/* Sources */ = {"); Rep cls_space 1 None true;
    Lit (str "isa = PBXSourcesBuildPhase;"); Rep cls_space 1 None true;
    Lit (str "buildActionMask = "); Rep cls_digit 1 None true; Lit (str ";");
    Rep cls_space 1 None true; Lit (str "files = (");
    Rep (cls_not ")") 1 None true; GClose 1 ].

(** Line 27. *)
Definition new_file_ref (chat_vc_uuid : text) : text :=
  [TAB; TAB] ++ chat_vc_uuid
  ++ str " /* ChatViewController.swift */ = {isa = PBXFileReference; lastKnownFileType = sourcecode.swift; path = ChatViewController.swift; sourceTree = "
  ++ [DQ] ++ str "<group>" ++ [DQ] ++ str "; };" ++ [NL].

(** Line 37. *)
Definition new_build_file (chat_vc_build_uuid chat_vc_uuid : text) : text :=
  [TAB; TAB] ++ chat_vc_build_uuid
  ++ str " /* ChatViewController.swift in Sources */ = {isa = PBXBuildFile; fileRef = "
  ++ chat_vc_uuid ++ str " /* ChatViewController.swift */; };" ++ [NL].

(** Line 51. *)
Definition chat_group (chat_group_uuid : text) : text :=
  [TAB; TAB; TAB; TAB] ++ chat_group_uuid ++ str " /* Chat */," ++ [NL].

(** Lines 60-68. *)
Definition chat_group_def (chat_group_uuid chat_vc_uuid : text) : text :=
  [TAB; TAB] ++ chat_group_uuid ++ str " /* Chat */ = {" ++ [NL]
  ++ [TAB; TAB; TAB] ++ str "isa = PBXGroup;" ++ [NL]
  ++ [TAB; TAB; TAB] ++ str "children = (" ++ [NL]
  ++ [TAB; TAB; TAB; TAB] ++ chat_vc_uuid
  ++ str " /* ChatViewController.swift */," ++ [NL]
  ++ [TAB; TAB; TAB] ++ str ");" ++ [NL]
  ++ [TAB; TAB; TAB] ++ str "path = Chat;" ++ [NL]
  ++ [TAB; TAB; TAB] ++ str "sourceTree = " ++ [DQ] ++ str "<group>" ++ [DQ]
  ++ str ";" ++ [NL]
  ++ [TAB; TAB] ++ str "};" ++ [NL].

(** Line 78. *)
Definition new_source_ref (chat_vc_build_uuid : text) : text :=
  [TAB; TAB; TAB; TAB] ++ chat_vc_build_uuid
  ++ str " /* ChatViewController.swift in Sources */," ++ [NL].

(** [add_chat_view_controller] on the text in memory: [disk] is the text
    [f.read()] returns, the result the text handed to [f.write].  The
    three identifiers are the first three draws.  Every substitution leaves
    the text as it is when its pattern does not occur; line 88 always
    writes. *)
Definition add_chat_view_controller (disk : text) (rnd : nat -> N) : text :=
  let content := disk in
  let chat_vc_uuid := generate_xcode_uuid (rnd 0) in
  let chat_vc_build_uuid := generate_xcode_uuid (rnd 1) in
  let content :=
    re_sub file_ref_pattern
           (fun c m => group c m 1 ++ new_file_ref chat_vc_uuid) content None in
  let content :=
    re_sub build_file_pattern
           (fun c m => group c m 1 ++ new_build_file chat_vc_build_uuid chat_vc_uuid)
           content None in
  let chat_group_uuid := generate_xcode_uuid (rnd 2) in
  let content :=
    re_sub features_pattern
           (fun c m => group c m 1 ++ chat_group chat_group_uuid) content None in
  let content :=
    re_sub groups_end_pattern
           (fun c m => chat_group_def chat_group_uuid chat_vc_uuid ++ [NL]
                         ++ group c m 1) content None in
  re_sub sources_pattern
         (fun c m => group c m 1 ++ new_source_ref chat_vc_build_uuid)
         content (Some 1).

(** ** [fix_xcode_project.py], lines 126-135 *)

(** The script's entry point: the Swift files found under the project
    directory are the candidates.  [project_dir] is the directory tree,
    [stored] the characters of its [project.pbxproj]. *)
Definition fix_xcode_project_main (project_dir : dir) (stored : text)
           (rnd : nat -> N) : outcome * text :=
  let swift_files := find_swift_files project_dir in
  add_files_to_project_on_file stored swift_files rnd.

(** ** [add_file_preview.py] *)

Module AddFilePreview.

(** Lines 7-9. *)
Definition generate_xcode_uuid (r : N) : text := upper (firstn 24 (uuid_hex r)).

(** The pattern of line 24. *)
Definition file_ref_pattern : regex :=
  [ GOpen 1;
    Lit (str "6DC926D40F67449184C94AA8 /* FileExplorerViewController.swift */ = {isa = PBXFileReference");
    Rep (cls_not "}") 1 None true; Lit (str "};" ++ [NL]); GClose 1 ].

(** The pattern of line 34: any identifier in front of the build file of
    [FileExplorerViewController.swift]. *)
Definition build_file_pattern : regex :=
  [ GOpen 1; Rep cls_hex_upper 1 None true;
    Lit (str " /* FileExplorerViewController.swift in Sources */ = {isa = PBXBuildFile");
    Rep (cls_not "}") 1 None true; Lit (str "};" ++ [NL]); GClose 1 ].

(** The pattern of line 44: the group entry of
    [FileExplorerViewController.swift]. *)
Definition file_explorer_pattern : regex :=
  [ GOpen 1;
    Lit (str "6DC926D40F67449184C94AA8 /* FileExplorerViewController.swift */,");
    GClose 1 ].

(** The pattern of line 54. *)
Definition sources_pattern : regex :=
  [ GOpen 1; Rep cls_hex_upper 1 None true;
    Lit (str " /* FileExplorerViewController.swift in Sources */,"); GClose 1 ].

(** Line 27. *)
Definition new_file_ref (file_preview_uuid : text) : text :=
  [TAB; TAB] ++ file_preview_uuid
  ++ str " /* FilePreviewViewController.swift */ = {isa = PBXFileReference; lastKnownFileType = sourcecode.swift; path = FilePreviewViewController.swift; sourceTree = "
  ++ [DQ] ++ str "<group>" ++ [DQ] ++ str "; };" ++ [NL].

(** Line 37. *)
Definition new_build_file (file_preview_build_uuid file_preview_uuid : text)
  : text :=
  [TAB; TAB] ++ file_preview_build_uuid
  ++ str " /* FilePreviewViewController.swift in Sources */ = {isa = PBXBuildFile; fileRef = "
  ++ file_preview_uuid ++ str " /* FilePreviewViewController.swift */; };" ++ [NL].

(** Line 47. *)
Definition new_file_ref_in_group (file_preview_uuid : text) : text :=
  [NL] ++ [TAB; TAB; TAB; TAB] ++ file_preview_uuid
  ++ str " /* FilePreviewViewController.swift */,".

(** Line 57. *)
Definition new_source_ref (file_preview_build_uuid : text) : text :=
  [NL] ++ [TAB; TAB; TAB; TAB] ++ file_preview_build_uuid
  ++ str " /* FilePreviewViewController.swift in Sources */,".

(** [add_file_preview] on the text in memory: from the text [f.read()]
    returns to the text handed to [f.write]; the two identifiers are the
    first two draws.  Each of the four substitutions replaces every
    match. *)
Definition add_file_preview (disk : text) (rnd : nat -> N) : text :=
  let content := disk in
  let file_preview_uuid := generate_xcode_uuid (rnd 0) in
  let file_preview_build_uuid := generate_xcode_uuid (rnd 1) in
  let content :=
    re_sub file_ref_pattern
           (fun c m => group c m 1 ++ new_file_ref file_preview_uuid)
           content None in
  let content :=
    re_sub build_file_pattern
           (fun c m => group c m 1
                         ++ new_build_file file_preview_build_uuid file_preview_uuid)
           content None in
  let content :=
    re_sub file_explorer_pattern
           (fun c m => group c m 1 ++ new_file_ref_in_group file_preview_uuid)
           content None in
  re_sub sources_pattern
         (fun c m => group c m 1 ++ new_source_ref file_preview_build_uuid)
         content None.

End AddFilePreview.

(** ** [add_missing_viewcontrollers.py] *)

Module AddMissingViewControllers.

(** Lines 7-9. *)
Definition generate_xcode_uuid (r : N) : text := upper (firstn 24 (uuid_hex r)).

(** The pattern of line 30. *)
Definition file_ref_pattern : regex :=
  [ GOpen 1;
    Lit (str "908A0FC3A7394AEDABD41BAE /* ChatViewController.swift */ = {isa = PBXFileReference");
    Rep (cls_not "}") 1 None true; Lit (str "};" ++ [NL]); GClose 1 ].

(** The pattern of line 42. *)
Definition build_file_pattern : regex :=
  [ GOpen 1;
    Lit (str "704436B7DE1D469495491C6D /* ChatViewController.swift in Sources */ = {isa = PBXBuildFile");
    Rep (cls_not "}") 1 None true; Lit (str "};" ++ [NL]); GClose 1 ].

(** The pattern of line 53: the head of the Features group with the Chat
    group as its first child. *)
Definition features_pattern : regex :=
  [ GOpen 1; Lit (str "/* Features */ = {"); Rep cls_space 1 None true;
    Lit (str "isa = PBXGroup;"); Rep cls_space 1 None true;
    Lit (str "children = ("); Rep cls_space 1 None true;
    Lit (str "CAC97E9AD0264C45900DE34A /* Chat */,"); GClose 1 ].

(** The pattern of line 64. *)
Definition groups_end_pattern : regex :=
  [ GOpen 1; Lit (str "/* End PBXGroup section */"); GClose 1 ].

(** The pattern of line 89. *)
Definition sources_pattern : regex :=
  [ GOpen 1;
    Lit (str "704436B7DE1D469495491C6D /* ChatViewController.swift in Sources */,");
    GClose 1 ].

(** One PBXFileReference line of lines 33-34. *)
Definition file_ref_line (uuid : text) (name : string) : text :=
  [TAB; TAB] ++ uuid ++ str " /* " ++ str name
  ++ str " */ = {isa = PBXFileReference; lastKnownFileType = sourcecode.swift; path = "
  ++ str name ++ str "; sourceTree = " ++ [DQ] ++ str "<group>" ++ [DQ]
  ++ str "; };" ++ [NL].

(** Lines 33-35. *)
Definition new_file_refs (file_explorer_uuid terminal_uuid : text) : text :=
  file_ref_line file_explorer_uuid "FileExplorerViewController.swift"
  ++ file_ref_line terminal_uuid "TerminalViewController.swift".

(** One PBXBuildFile line of lines 45-46. *)
Definition build_file_line (build_uuid uuid : text) (name : string) : text :=
  [TAB; TAB] ++ build_uuid ++ str " /* " ++ str name
  ++ str " in Sources */ = {isa = PBXBuildFile; fileRef = " ++ uuid
  ++ str " /* " ++ str name ++ str " */; };" ++ [NL].

(** Lines 45-47. *)
Definition new_build_files
           (file_explorer_build_uuid file_explorer_uuid
            terminal_build_uuid terminal_uuid : text) : text :=
  build_file_line file_explorer_build_uuid file_explorer_uuid
                  "FileExplorerViewController.swift"
  ++ build_file_line terminal_build_uuid terminal_uuid
                     "TerminalViewController.swift".

(** Lines 56-57. *)
Definition new_groups (file_explorer_group_uuid terminal_group_uuid : text)
  : text :=
  [TAB; TAB; TAB; TAB] ++ file_explorer_group_uuid ++ str " /* FileExplorer */,"
  ++ [NL]
  ++ [TAB; TAB; TAB; TAB] ++ terminal_group_uuid ++ str " /* Terminal */,".

(** One group definition of lines 66-81. *)
Definition group_def (group_uuid : text) (group_name : string)
           (child_uuid : text) (child_name : string) : text :=
  [TAB; TAB] ++ group_uuid ++ str " /* " ++ str group_name ++ str " */ = {"
  ++ [NL]
  ++ [TAB; TAB; TAB] ++ str "isa = PBXGroup;" ++ [NL]
  ++ [TAB; TAB; TAB] ++ str "children = (" ++ [NL]
  ++ [TAB; TAB; TAB; TAB] ++ child_uuid ++ str " /* " ++ str child_name
  ++ str " */," ++ [NL]
  ++ [TAB; TAB; TAB] ++ str ");" ++ [NL]
  ++ [TAB; TAB; TAB] ++ str "path = " ++ str group_name ++ str ";" ++ [NL]
  ++ [TAB; TAB; TAB] ++ str "sourceTree = " ++ [DQ] ++ str "<group>" ++ [DQ]
  ++ str ";" ++ [NL]
  ++ [TAB; TAB] ++ str "};" ++ [NL].

(** Lines 66-82. *)
Definition groups_def
           (file_explorer_group_uuid file_explorer_uuid
            terminal_group_uuid terminal_uuid : text) : text :=
  group_def file_explorer_group_uuid "FileExplorer"
            file_explorer_uuid "FileExplorerViewController.swift"
  ++ group_def terminal_group_uuid "Terminal"
               terminal_uuid "TerminalViewController.swift".

(** Lines 92-93. *)
Definition new_source_refs (file_explorer_build_uuid terminal_build_uuid : text)
  : text :=
  [NL] ++ [TAB; TAB; TAB; TAB] ++ file_explorer_build_uuid
  ++ str " /* FileExplorerViewController.swift in Sources */," ++ [NL]
  ++ [TAB; TAB; TAB; TAB] ++ terminal_build_uuid
  ++ str " /* TerminalViewController.swift in Sources */,".

(** [add_view_controllers] on the text in memory: from the text [f.read()]
    returns to the text handed to [f.write]; the six identifiers are the
    first six draws, in the order of lines 19-26.  Each of the five
    substitutions replaces every match. *)
Definition add_view_controllers (disk : text) (rnd : nat -> N) : text :=
  let content := disk in
  let file_explorer_uuid := generate_xcode_uuid (rnd 0) in
  let file_explorer_build_uuid := generate_xcode_uuid (rnd 1) in
  let file_explorer_group_uuid := generate_xcode_uuid (rnd 2) in
  let terminal_uuid := generate_xcode_uuid (rnd 3) in
  let terminal_build_uuid := generate_xcode_uuid (rnd 4) in
  let terminal_group_uuid := generate_xcode_uuid (rnd 5) in
  let content :=
    re_sub file_ref_pattern
           (fun c m => group c m 1
                         ++ new_file_refs file_explorer_uuid terminal_uuid)
           content None in
  let content :=
    re_sub build_file_pattern
           (fun c m => group c m 1
                         ++ new_build_files file_explorer_build_uuid
                              file_explorer_uuid terminal_build_uuid terminal_uuid)
           content None in
  let content :=
    re_sub features_pattern
           (fun c m => group c m 1 ++ [NL]
                         ++ new_groups file_explorer_group_uuid terminal_group_uuid)
           content None in
  let content :=
    re_sub groups_end_pattern
           (fun c m => groups_def file_explorer_group_uuid file_explorer_uuid
                         terminal_group_uuid terminal_uuid
                         ++ [NL] ++ group c m 1)
           content None in
  re_sub sources_pattern
         (fun c m => group c m 1
                       ++ new_source_refs file_explorer_build_uuid
                            terminal_build_uuid)
         content None.

End AddMissingViewControllers.

(** ** Sample data *)

Definition lines (ls : list string) : text := join [NL] (map str ls).

(** A small descriptor in which [AppDelegate.swift] is registered. *)
Definition sample_project : text := lines [
  "/* Begin PBXBuildFile section */";
  "  B00000000000000000000001 /* AppDelegate.swift in Sources */ = {isa = PBXBuildFile; fileRef = F00000000000000000000001 /* AppDelegate.swift */; };";
  "/* End PBXBuildFile section */";
  "/* Begin PBXFileReference section */";
  "  F00000000000000000000001 /* AppDelegate.swift */ = {isa = PBXFileReference; lastKnownFileType = sourcecode.swift; path = AppDelegate.swift; };";
  "/* End PBXFileReference section */";
  "/* Begin PBXGroup section */";
  "  AAAAAAAAAAAAAAAAAAAAAAAA = {";
  "   isa = PBXGroup;";
  "   children = (";
  "    F00000000000000000000001 /* AppDelegate.swift */,";
  "   );";
  "  };";
  "/* End PBXGroup section */";
  "  mainGroup = AAAAAAAAAAAAAAAAAAAAAAAA;";
  "  C00000000000000000000001 /* Sources */ = {";
  "   isa = PBXSourcesBuildPhase;";
  "   buildActionMask = 2147483647;";
  "   files = (";
  "    B00000000000000000000001 /* AppDelegate.swift in Sources */,";
  "   );";
  "  };"
]%string.


(** A descriptor whose build phase lists a file named [a);b.swift] before
    [c.swift]. *)
Definition project_with_paren_name : text := lines [
  "/* Begin PBXBuildFile section */";
  "  B00000000000000000000001 /* a);b.swift in Sources */ = {isa = PBXBuildFile; fileRef = F00000000000000000000001 /* a);b.swift */; };";
  "  B00000000000000000000002 /* c.swift in Sources */ = {isa = PBXBuildFile; fileRef = F00000000000000000000002 /* c.swift */; };";
  "/* End PBXBuildFile section */";
  "/* Begin PBXFileReference section */";
  "  F00000000000000000000001 /* a);b.swift */ = {isa = PBXFileReference; lastKnownFileType = sourcecode.swift; path = a);b.swift; };";
  "  F00000000000000000000002 /* c.swift */ = {isa = PBXFileReference; lastKnownFileType = sourcecode.swift; path = c.swift; };";
  "/* End PBXFileReference section */";
  "  mainGroup = AAAAAAAAAAAAAAAAAAAAAAAA;";
  "  C00000000000000000000001 /* Sources */ = {";
  "   isa = PBXSourcesBuildPhase;";
  "   buildActionMask = 2147483647;";
  "   files = (";
  "    B00000000000000000000001 /* a);b.swift in Sources */,";
  "    B00000000000000000000002 /* c.swift in Sources */,";
  "   );";
  "  };"
]%string.


(** A descriptor with the records [add_chat_to_xcode.py] looks for. *)
Definition project_with_file_node : text := lines [
  "/* Begin PBXBuildFile section */";
  "  1D1A2B722C60A1230001A234 /* FileNode.swift in Sources */ = {isa = PBXBuildFile; fileRef = 1D1A2B732C60A1230001A234 /* FileNode.swift */; };";
  "/* End PBXBuildFile section */";
  "/* Begin PBXFileReference section */";
  "  1D1A2B732C60A1230001A234 /* FileNode.swift */ = {isa = PBXFileReference; lastKnownFileType = sourcecode.swift; path = FileNode.swift; };";
  "/* End PBXFileReference section */";
  "/* Begin PBXGroup section */";
  "  EEEEEEEEEEEEEEEEEEEEEEEE /* Features */ = {";
  "   isa = PBXGroup;";
  "   children = (";
  "    1D1A2B732C60A1230001A234 /* FileNode.swift */,";
  "   );";
  "  };";
  "/* End PBXGroup section */";
  "  C00000000000000000000001 /* Sources */ = {";
  "   isa = PBXSourcesBuildPhase;";
  "   buildActionMask = 2147483647;";
  "   files = (";
  "    1D1A2B722C60A1230001A234 /* FileNode.swift in Sources */,";
  "   );";
  "  };"
]%string.

(** A descriptor with both markers of lines 38-48 and without a
    PBXBuildFile section. *)
Definition project_without_build_files : text := lines [
  "/* Begin PBXFileReference section */";
  "/* End PBXFileReference section */";
  "/* Begin PBXGroup section */";
  "  AAAAAAAAAAAAAAAAAAAAAAAA = {";
  "   isa = PBXGroup;";
  "   children = (";
  "   );";
  "  };";
  "/* End PBXGroup section */";
  "  mainGroup = AAAAAAAAAAAAAAAAAAAAAAAA;";
  "  C00000000000000000000001 /* Sources */ = {";
  "   isa = PBXSourcesBuildPhase;";
  "   buildActionMask = 2147483647;";
  "   files = (";
  "   );";
  "  };"
]%string.



(** Random draws that differ in the digits [generate_uuid] keeps. *)
Definition sample_rnd (k : nat) : N := (N.of_nat (S k) * 2 ^ 100 + 7)%N.

(** A source tree with a hidden and a build directory. *)
Definition sample_tree : dir :=
  Dir [str "App.swift"; str "README.md"]
      [ (str ".git", Dir [str "hook.swift"] []);
        (str "Build", Dir [str "Generated.swift"] []);
        (str "Core", Dir [str "Model.swift"; str "notes.txt"]
                         [(str "Net", Dir [str "Client.swift"] [])]) ].

(** A source tree with a symbolic link to a directory and a directory
    that cannot be listed. *)
Definition linked_tree : dir :=
  Dir [str "Top.swift"]
      [ (str "Shared", Link (Dir [str "Linked.swift"] []));
        (str "Locked", Unreadable (Dir [str "Secret.swift"] []));
        (str "Core", Dir [str "Model.swift"] []) ].

(** The first occurrence of [x] in [s], as [s.find(x)] (with [None] for -1). *)
Fixpoint find_from (s x : text) (i : nat) : option nat :=
  if startswith s x then Some i
  else match s with
       | [] => None
       | _ :: s' => find_from s' x (S i)
       end.

Definition find (s x : text) : option nat := find_from s x 0.

(** [s.count(x)] for an [x] that cannot overlap itself. *)
Fixpoint count (s x : text) : nat :=
  (if startswith s x then 1 else 0) +
  match s with
  | [] => 0
  | _ :: s' => count s' x
  end.

(** The header of a PBXFileReference record with a given display name, as
    line 64 writes it. *)
Definition file_ref_header (filename : text) : text :=
  str " /* " ++ filename ++ str " */ = {isa = PBXFileReference;".

Definition has_file_reference (content filename : text) : bool :=
  contains content (file_ref_header filename).

Definition file_reference_count (content filename : text) : nat :=
  count content (file_ref_header filename).

(** ** Vocabulary of the statements *)

Definition entry_name (e : text * text * text) : text := snd e.

Definition holds_names (adds : list (text * text * text)) (content : text) : Prop :=
  forall e, In e adds -> contains content (entry_name e) = true.

(** [subseq s t]: [t] is [s] with characters inserted; nothing of [s] is
    removed, changed or moved. *)
Inductive subseq : text -> text -> Prop :=
| subseq_nil : subseq [] []
| subseq_keep c s t : subseq s t -> subseq (c :: s) (c :: t)
| subseq_ins c s t : subseq s t -> subseq s (c :: t).

(** The markers the run requires before it plans anything. *)
Definition has_main_group (content : text) : Prop :=
  exists pre id post,
    content = pre ++ str "mainGroup = " ++ id ++ str ";" ++ post /\
    length id = 24 /\ Forall (fun c => cls_hex_upper c = true) id.

Definition has_sources_phase (content : text) : Prop :=
  exists pre ws x y post,
    content = pre ++ str "/* Sources */ = {" ++ ws
                  ++ str "isa = PBXSourcesBuildPhase;" ++ x
                  ++ str "files = (" ++ y ++ str ");" ++ post /\
    ws <> [] /\ Forall (fun c => cls_space c = true) ws /\
    x <> [] /\ Forall (fun c => cls_not "}" c = true) x /\
    y <> [] /\ Forall (fun c => cls_not ")" c = true) y.


(** The bound [hi] of a quantifier admits [n] repetitions. *)
Definition within (hi : option nat) (n : nat) : Prop :=
  match hi with
  | None => True
  | Some h => n <= h
  end.

(** [derives r s i m j m']: the pattern [r] can consume a prefix of [s],
    starting at position [i] with the group boundaries [m], ending at
    position [j] with the boundaries [m']. *)
Inductive derives : regex -> text -> nat -> marks -> nat -> marks -> Prop :=
| d_nil s i m : derives [] s i m i m
| d_lit w r s i m j m' :
    derives r s (i + length w) m j m' ->
    derives (Lit w :: r) (w ++ s) i m j m'
| d_rep cls lo hi greedy r u s i m j m' :
    Forall (fun c => cls c = true) u ->
    lo <= length u -> within hi (length u) ->
    derives r s (i + length u) m j m' ->
    derives (Rep cls lo hi greedy :: r) (u ++ s) i m j m'
| d_open g r s i m j m' :
    derives r s i ((Op g, i) :: m) j m' ->
    derives (GOpen g :: r) s i m j m'
| d_close g r s i m j m' :
    derives r s i ((Cl g, i) :: m) j m' ->
    derives (GClose g :: r) s i m j m'.

(** What a path through [d] finds: a link leads to its target, and a
    directory that cannot be listed can still be passed through. *)
Fixpoint dir_files (d : dir) : list text :=
  match d with
  | Dir filenames _ => filenames
  | Link target => dir_files target
  | Unreadable hidden => dir_files hidden
  end.

Fixpoint dir_subdirs (d : dir) : list (text * dir) :=
  match d with
  | Dir _ subdirs => subdirs
  | Link target => dir_subdirs target
  | Unreadable hidden => dir_subdirs hidden
  end.

(** [file_at d dirs name]: going down from [d] through the directories
    named [dirs] leads to a directory that lists the file [name]. *)
Fixpoint file_at (d : dir) (dirs : list text) (name : text) : Prop :=
  match dirs with
  | [] => In name (dir_files d)
  | x :: dirs' => exists sub, In (x, sub) (dir_subdirs d) /\ file_at sub dirs' name
  end.

(** [walked_at d dirs name]: the same, through directories that are
    neither links nor unreadable, [d] included. *)
Fixpoint walked_at (d : dir) (dirs : list text) (name : text) : Prop :=
  match dirs with
  | [] =>
      match d with
      | Dir filenames _ => In name filenames
      | _ => False
      end
  | x :: dirs' =>
      match d with
      | Dir _ subdirs => exists sub, In (x, sub) subdirs /\ walked_at sub dirs' name
      | _ => False
      end
  end.

(** A pattern piece without capture parentheses. *)
Definition plain_atom (a : atom) : bool :=
  match a with
  | GOpen _ | GClose _ => false
  | Lit _ | Rep _ _ _ _ => true
  end.

(** The literal pieces of a pattern. *)
Fixpoint literals (r : regex) : list text :=
  match r with
  | [] => []
  | Lit w :: r' => w :: literals r'
  | _ :: r' => literals r'
  end.

(** A pattern that is one capture group around pieces without groups, as
    every pattern handed to [re.sub] in the scripts. *)
Definition wrapped (r : regex) : Prop :=
  exists body, r = GOpen 1 :: body ++ [GClose 1] /\
               forallb plain_atom body = true.

(** * Properties *)

(** ** Text *)

Lemma startswith_spec (s p : text) :
  startswith s p = true <-> exists rest, s = p ++ rest.
Proof.
  revert s; induction p as [|c p IH]; intros s; simpl.
  - split; [intros _; now exists s | reflexivity].
  - destruct s as [|d s]; [split; [discriminate | intros [rest H]; discriminate]|].
    rewrite andb_true_iff, Ascii.eqb_eq, IH. split.
    + intros [-> [rest ->]]. now exists rest.
    + intros [rest H]. injection H as -> ->. split; [reflexivity | now exists rest].
Qed.

Lemma startswith_app (p rest : text) : startswith (p ++ rest) p = true.
Proof. apply startswith_spec. now exists rest. Qed.

Lemma startswith_skipn (s p : text) :
  startswith s p = true -> s = p ++ skipn (length p) s.
Proof.
  intros H. apply startswith_spec in H as [rest ->].
  now rewrite skipn_app, skipn_all, Nat.sub_diag.
Qed.

Lemma contains_spec (s x : text) :
  contains s x = true <-> exists pre post, s = pre ++ x ++ post.
Proof.
  induction s as [|c s IH]; cbn [contains].
  - rewrite orb_false_r, startswith_spec. split.
    + intros [rest H]. now exists [], rest.
    + intros [pre [post H]]. destruct pre; [now exists post | discriminate].
  - rewrite orb_true_iff, startswith_spec, IH. split.
    + intros [[rest H] | [pre [post H]]].
      * now exists [], rest.
      * exists (c :: pre), post. now rewrite H.
    + intros [pre [post H]]. destruct pre as [|d pre].
      * left. now exists post.
      * right. injection H as -> ->. now exists pre, post.
Qed.

Lemma contains_intro (pre x post : text) : contains (pre ++ x ++ post) x = true.
Proof. apply contains_spec. now exists pre, post. Qed.

Lemma contains_refl (x : text) : contains x x = true.
Proof. apply contains_spec. exists [], []. now rewrite app_nil_r. Qed.

Lemma contains_trans (s y x : text) :
  contains s y = true -> contains y x = true -> contains s x = true.
Proof.
  rewrite !contains_spec. intros [a [b ->]] [c [d ->]].
  exists (a ++ c), (d ++ b). now rewrite <- !app_assoc.
Qed.

Lemma contains_app_l (a b x : text) :
  contains a x = true -> contains (a ++ b) x = true.
Proof.
  rewrite !contains_spec. intros [pre [post ->]].
  exists pre, (post ++ b). now rewrite <- !app_assoc.
Qed.

Lemma contains_app_r (a b x : text) :
  contains b x = true -> contains (a ++ b) x = true.
Proof.
  rewrite !contains_spec. intros [pre [post ->]].
  exists (a ++ pre), post. now rewrite <- !app_assoc.
Qed.

Lemma contains_slice (s : text) (a b : nat) : contains s (slice s a b) = true.
Proof.
  apply contains_spec. unfold slice.
  exists (firstn a s), (skipn (b - a) (skipn a s)).
  now rewrite firstn_skipn, firstn_skipn.
Qed.

Lemma contains_join (sep x : text) (parts : list text) :
  In x parts -> contains (join sep parts) x = true.
Proof.
  induction parts as [|p ps IH]; [contradiction|].
  intros [-> | H]; destruct ps as [|q ps].
  - apply contains_refl.
  - change (contains (x ++ sep ++ join sep (q :: ps)) x = true).
    apply contains_app_l, contains_refl.
  - contradiction.
  - change (contains (p ++ sep ++ join sep (q :: ps)) x = true).
    apply contains_app_r, contains_app_r, IH, H.
Qed.

Lemma slice_app_mid (a b c : text) :
  slice (a ++ b ++ c) (length a) (length a + length b) = b.
Proof.
  unfold slice. rewrite skipn_app, skipn_all, Nat.sub_diag. simpl.
  replace (length a + length b - length a) with (length b) by lia.
  now rewrite firstn_app, firstn_all, Nat.sub_diag, firstn_O, app_nil_r.
Qed.

#[local] Hint Constructors subseq : core.

Lemma subseq_refl (s : text) : subseq s s.
Proof. induction s; auto. Qed.

Lemma subseq_ins_app (x s t : text) : subseq s t -> subseq s (x ++ t).
Proof. induction x; simpl; auto. Qed.

Lemma subseq_app (s1 t1 s2 t2 : text) :
  subseq s1 t1 -> subseq s2 t2 -> subseq (s1 ++ s2) (t1 ++ t2).
Proof. induction 1; simpl; auto. Qed.

Lemma subseq_trans (s t u : text) : subseq s t -> subseq t u -> subseq s u.
Proof.
  intros H1 H2. revert s H1.
  induction H2 as [|c t u H IH|c t u H IH]; intros s H1.
  - exact H1.
  - inversion H1; subst; auto.
  - auto.
Qed.

Lemma subseq_length (s t : text) : subseq s t -> length s <= length t.
Proof. induction 1; simpl; lia. Qed.

Lemma subseq_same_length (s t : text) :
  subseq s t -> length t <= length s -> s = t.
Proof.
  induction 1 as [|c s t H IH|c s t H IH]; simpl; intros L.
  - reflexivity.
  - f_equal. apply IH. lia.
  - apply subseq_length in H. lia.
Qed.

Lemma subseq_app_r (s x : text) : subseq s (s ++ x).
Proof.
  rewrite <- (app_nil_r s) at 1.
  apply subseq_app; [apply subseq_refl|]. induction x; auto.
Qed.

(** ** Text mode *)

Lemma read_text_other (c : ascii) (s : text) :
  Ascii.eqb c CR = false -> read_text (c :: s) = c :: read_text s.
Proof. intros H. cbn [read_text]. now rewrite H. Qed.

Lemma read_text_crlf (s : text) : read_text (CR :: NL :: s) = NL :: read_text s.
Proof. reflexivity. Qed.

Lemma read_text_cr (d : ascii) (s : text) :
  Ascii.eqb d NL = false -> read_text (CR :: d :: s) = NL :: read_text (d :: s).
Proof.
  intros H.
  change (read_text (CR :: d :: s))
    with (if Ascii.eqb d NL then NL :: read_text s else NL :: read_text (d :: s)).
  now rewrite H.
Qed.

(** No carriage return is left in the text read. *)
Lemma read_text_no_cr (s : text) : existsb (Ascii.eqb CR) (read_text s) = false.
Proof.
  assert (G : forall n s, length s <= n ->
                          existsb (Ascii.eqb CR) (read_text s) = false).
  { induction n as [|n IH]; intros t L.
    - destruct t; [reflexivity | simpl in L; lia].
    - destruct t as [|c t]; [reflexivity|]. simpl in L.
      destruct (Ascii.eqb c CR) eqn:E.
      + apply Ascii.eqb_eq in E. subst c.
        destruct t as [|d t]; [reflexivity|].
        destruct (Ascii.eqb d NL) eqn:D.
        * apply Ascii.eqb_eq in D. subst d. rewrite read_text_crlf.
          cbn [existsb]. rewrite IH by (simpl in L; lia). reflexivity.
        * rewrite read_text_cr by exact D. cbn [existsb].
          rewrite IH by lia. reflexivity.
      + rewrite read_text_other by exact E. cbn [existsb].
        rewrite Ascii.eqb_sym, E. apply IH. lia. }
  apply (G (length s)). lia.
Qed.





(** ** [str.replace] *)

Lemma replace_go_skip (old new s : text) (k : nat) :
  replace_go old new s k = replace_go old new (skipn k s) 0.
Proof.
  revert k; induction s as [|c s IH]; intros [|k]; simpl; auto.
Qed.

Lemma replace_go_hit (old new rest : text) :
  old <> [] ->
  replace_go old new (old ++ rest) 0 = new ++ replace_go old new rest 0.
Proof.
  intros Hne. destruct old as [|c old]; [contradiction|].
  change (replace_go (c :: old) new ((c :: old) ++ rest) 0)
    with (if startswith ((c :: old) ++ rest) (c :: old)
          then new ++ replace_go (c :: old) new (old ++ rest) (length (c :: old) - 1)
          else c :: replace_go (c :: old) new (old ++ rest) 0).
  rewrite startswith_app, replace_go_skip.
  replace (length (c :: old) - 1) with (length old) by (simpl; lia).
  now rewrite skipn_app, skipn_all, Nat.sub_diag.
Qed.

Lemma replace_go_miss (old new : text) (c : ascii) (s : text) :
  startswith (c :: s) old = false ->
  replace_go old new (c :: s) 0 = c :: replace_go old new s 0.
Proof. intros H. cbn [replace_go]. now rewrite H. Qed.

(** Induction on the text along the way [replace] walks through it. *)
Lemma replace_ind (old : text) (P : text -> Prop) :
  old <> [] ->
  P [] ->
  (forall rest, P rest -> P (old ++ rest)) ->
  (forall c s, startswith (c :: s) old = false -> P s -> P (c :: s)) ->
  forall s, P s.
Proof.
  intros Hne H0 Hhit Hmiss s.
  assert (G : forall n s, length s <= n -> P s).
  { induction n as [|n IH]; intros t L.
    - destruct t; [exact H0 | simpl in L; lia].
    - destruct t as [|c t]; [exact H0|].
      destruct (startswith (c :: t) old) eqn:E.
      + apply startswith_spec in E as [rest E]. rewrite E. apply Hhit, IH.
        apply (f_equal (@length ascii)) in E. rewrite length_app in E.
        destruct old; [contradiction|]. simpl in *. lia.
      + apply Hmiss; [exact E|]. apply IH. simpl in L. lia. }
  now apply (G (length s)).
Qed.

Lemma replace_contains (s old new : text) :
  contains s old = true -> contains (replace s old new) new = true.
Proof.
  destruct old as [|c old].
  - intros _. simpl. apply contains_app_l, contains_refl.
  - unfold replace. set (o := c :: old).
    assert (Hne : o <> []) by discriminate.
    revert s. apply (@replace_ind o (fun s => contains s o = true ->
      contains (replace_go o new s 0) new = true) Hne).
    + simpl. discriminate.
    + intros rest _ _. rewrite replace_go_hit by exact Hne.
      apply contains_app_l, contains_refl.
    + intros d s E IH H. rewrite replace_go_miss by exact E.
      cbn [contains] in H. rewrite E in H.
      apply (contains_app_r [d]), IH, H.
Qed.


Lemma replace_absent (s old new : text) :
  old <> [] -> contains s old = false -> replace s old new = s.
Proof.
  intros Hne. destruct old as [|c old]; [contradiction|]. unfold replace.
  induction s as [|d s IH]; [reflexivity|]. intros H.
  cbn [contains] in H. apply orb_false_iff in H as [H1 H2].
  rewrite replace_go_miss by exact H1. f_equal. now apply IH.
Qed.

(** ** The matcher *)

Lemma within_0 (hi : option nat) : within hi 0.
Proof. destruct hi; simpl; lia. Qed.

Lemma within_S (hi : option nat) (n : nat) :
  can_take hi = true -> within (take_one hi) n -> within hi (S n).
Proof. destruct hi as [[|h]|]; simpl; intros; try discriminate; auto; lia. Qed.

Section Quantifier.
Variables (cls : ascii -> bool) (greedy : bool) (k : cont).

Lemma rep_sound (P : text -> nat -> marks -> nat -> marks -> Prop) :
  (forall s i m j m', k s i m = Some (j, m') -> P s i m j m') ->
  forall s lo hi i m j m',
    rep cls greedy k lo hi s i m = Some (j, m') ->
    exists u s', s = u ++ s' /\ Forall (fun c => cls c = true) u /\
                 lo <= length u /\ within hi (length u) /\
                 P s' (i + length u) m j m'.
Proof.
  intros Hk.
  assert (Stop : forall s lo hi i m j m', lo = 0 ->
    k s i m = Some (j, m') ->
    exists u s', s = u ++ s' /\ Forall (fun c => cls c = true) u /\
                 lo <= length u /\ within hi (length u) /\
                 P s' (i + length u) m j m').
  { intros s lo hi i m j m' -> Hs. exists [], s. simpl. rewrite Nat.add_0_r.
    split; [reflexivity|]. split; [constructor|]. split; [lia|].
    split; [apply within_0 | now apply Hk]. }
  induction s as [|c s IH]; intros lo hi i m j m' H.
  - simpl in H. destruct lo; [|discriminate]. now apply Stop.
  - assert (More : forall lo', lo' = pred lo -> cls c = true ->
      can_take hi = true ->
      rep cls greedy k lo' (take_one hi) s (S i) m = Some (j, m') ->
      exists u s', c :: s = u ++ s' /\ Forall (fun c => cls c = true) u /\
                   lo <= length u /\ within hi (length u) /\
                   P s' (i + length u) m j m').
    { intros lo' -> Hc Ht Hr. apply IH in Hr as (u & s' & -> & Hu & Hlo & Hhi & HP).
      exists (c :: u), s'. simpl.
      replace (i + S (length u)) with (S i + length u) by lia.
      split; [reflexivity|]. split; [now constructor|]. split; [lia|].
      split; [now apply within_S | exact HP]. }
    cbn [rep] in H. destruct (cls c) eqn:Hc; cbn [andb] in H.
    + destruct (can_take hi) eqn:Ht.
      * destruct lo as [|lo].
        -- destruct greedy.
           ++ destruct (rep cls true k 0 (take_one hi) s (S i) m) as [[j1 m1]|] eqn:Hr.
              ** injection H as <- <-. now apply (More 0).
              ** now apply Stop.
           ++ destruct (k (c :: s) i m) as [[j1 m1]|] eqn:Hs.
              ** injection H as <- <-. now apply Stop.
              ** now apply (More 0).
        -- now apply (More lo).
      * destruct lo; [now apply Stop | discriminate].
    + destruct lo; [now apply Stop | discriminate].
Qed.

Lemma rep_complete (s' : text) :
  (forall i m, k s' i m <> None) ->
  forall u lo hi i m,
    Forall (fun c => cls c = true) u ->
    lo <= length u -> within hi (length u) ->
    rep cls greedy k lo hi (u ++ s') i m <> None.
Proof.
  intros Hk. induction u as [|c u IH]; intros lo hi i m Hu Hlo Hhi.
  - simpl in Hlo. assert (lo = 0) as -> by lia. simpl app.
    destruct s' as [|c s]; [apply Hk|]. cbn [rep].
    destruct (cls c && can_take hi); [|apply Hk].
    destruct greedy.
    + destruct (rep cls true k 0 (take_one hi) s (S i) m); [discriminate | apply Hk].
    + destruct (k (c :: s) i m) eqn:E; [discriminate | now apply Hk in E].
  - inversion Hu as [|c' u' Hc Hu']; subst. simpl app. cbn [rep].
    assert (Ht : can_take hi = true).
    { destruct hi as [[|h]|]; simpl in *; auto; lia. }
    assert (Hhi' : within (take_one hi) (length u)).
    { destruct hi as [h|]; simpl in *; auto; lia. }
    rewrite Hc, Ht. cbn [andb].
    destruct lo as [|lo].
    + pose proof (IH 0 (take_one hi) (S i) m Hu' (Nat.le_0_l _) Hhi') as R.
      destruct greedy.
      * destruct (rep cls true k 0 (take_one hi) (u ++ s') (S i) m);
          [discriminate | contradiction].
      * destruct (k (c :: u ++ s') i m); [discriminate | exact R].
    + apply IH; auto. simpl in Hlo. lia.
Qed.
End Quantifier.

Lemma match_here_sound (r : regex) :
  forall s i m j m', match_here r s i m = Some (j, m') -> derives r s i m j m'.
Proof.
  induction r as [|a r IH]; intros s i m j m' H.
  - simpl in H. injection H as <- <-. constructor.
  - destruct a as [w|cls lo hi g|g|g]; cbn [match_here] in H.
    + destruct (startswith s w) eqn:E; [|discriminate].
      rewrite (startswith_skipn _ _ E). constructor. now apply IH.
    + apply (@rep_sound _ _ _ (derives r) IH) in H as (u & s' & -> & Hu & Hlo & Hhi & Hd).
      now constructor.
    + constructor. now apply IH.
    + constructor. now apply IH.
Qed.

Lemma match_here_complete (r : regex) (s : text) (i m j m' : _) :
  derives r s i m j m' -> forall i2 m2, match_here r s i2 m2 <> None.
Proof.
  induction 1 as [s i m|w r s i m j m' _ IH|cls lo hi g r u s i m j m' Hu Hlo Hhi _ IH
                 |g r s i m j m' _ IH|g r s i m j m' _ IH]; intros i2 m2;
    cbn [match_here].
  - discriminate.
  - rewrite startswith_app, skipn_app, skipn_all, Nat.sub_diag. apply IH.
  - now apply rep_complete.
  - apply IH.
  - apply IH.
Qed.

(** What a successful [re.search] tells: the text splits at [m.start()] and
    the pattern derives a match from there. *)
Lemma search_from_sound (r : regex) :
  forall s i mt, search_from r s i = Some mt ->
    exists pre rest, s = pre ++ rest /\ m_start mt = i + length pre /\
      derives r rest (m_start mt) [] (m_end mt) (m_marks mt).
Proof.
  induction s as [|c s IH]; intros i mt H; cbn [search_from] in H.
  - destruct (match_here r [] i []) as [[j m]|] eqn:E; [|discriminate].
    injection H as <-. exists [], []. simpl. rewrite Nat.add_0_r.
    repeat split. now apply match_here_sound.
  - destruct (match_here r (c :: s) i []) as [[j m]|] eqn:E.
    + injection H as <-. exists [], (c :: s). simpl. rewrite Nat.add_0_r.
      repeat split. now apply match_here_sound.
    + apply IH in H as (pre & rest & -> & Hs & Hd).
      exists (c :: pre), rest. simpl. repeat split; [lia | exact Hd].
Qed.

Lemma search_from_complete (r : regex) (pre rest : text) (i0 m0 j m' : _) :
  derives r rest i0 m0 j m' -> forall i, search_from r (pre ++ rest) i <> None.
Proof.
  intros Hd. induction pre as [|c pre IH]; intros i.
  - simpl app. pose proof (match_here_complete _ _ _ _ _ _ Hd i []) as Hm.
    destruct rest; cbn [search_from];
      destruct (match_here r _ i []) as [[? ?]|]; try discriminate; contradiction.
  - simpl app. cbn [search_from].
    destruct (match_here r (c :: pre ++ rest) i []) as [[? ?]|];
      [discriminate | apply IH].
Qed.

Lemma re_search_sound (r : regex) (content : text) (mt : rmatch) :
  re_search r content = Some mt ->
  exists pre rest, content = pre ++ rest /\ m_start mt = length pre /\
    derives r rest (length pre) [] (m_end mt) (m_marks mt).
Proof.
  intros H. apply search_from_sound in H as (pre & rest & -> & Hs & Hd).
  simpl in Hs. rewrite Hs in Hd. now exists pre, rest.
Qed.

(** ** The loop of lines 55-72 *)

Lemma scan_file_refs (content : text) (swift_files : list (text * text))
      (rnd : nat -> N) (n : nat) :
  file_refs_to_add (scan content swift_files rnd n)
  = map (fun e => file_ref_record (fst (fst e)) (snd e))
        (files_to_add (scan content swift_files rnd n)).
Proof.
  revert n; induction swift_files as [|[f p] rest IH]; intros n; simpl.
  - reflexivity.
  - destruct (is_file_in_project content f); simpl; [apply IH|].
    now rewrite IH.
Qed.

Lemma scan_build_files (content : text) (swift_files : list (text * text))
      (rnd : nat -> N) (n : nat) :
  build_files_to_add (scan content swift_files rnd n)
  = map (fun e => build_file_record (snd (fst e)) (snd e) (fst (fst e)))
        (files_to_add (scan content swift_files rnd n)).
Proof.
  revert n; induction swift_files as [|[f p] rest IH]; intros n; simpl.
  - reflexivity.
  - destruct (is_file_in_project content f); simpl; [apply IH|].
    now rewrite IH.
Qed.

(** The names the loop plans are the candidates' names that fail the
    membership test, in the candidates' order. *)
Lemma scan_names (content : text) (swift_files : list (text * text))
      (rnd : nat -> N) (n : nat) :
  map entry_name (files_to_add (scan content swift_files rnd n))
  = filter (fun f => negb (is_file_in_project content f)) (map fst swift_files).
Proof.
  revert n; induction swift_files as [|[f p] rest IH]; intros n; simpl.
  - reflexivity.
  - destruct (is_file_in_project content f); simpl; [apply IH|].
    now rewrite IH.
Qed.

Lemma scan_empty (content : text) (swift_files : list (text * text))
      (rnd : nat -> N) (n : nat) :
  files_to_add (scan content swift_files rnd n) = [] <->
  forall f, In f (map fst swift_files) -> is_file_in_project content f = true.
Proof.
  revert n; induction swift_files as [|[f p] rest IH]; intros n; simpl.
  - split; [intros _ f [] | reflexivity].
  - destruct (is_file_in_project content f) eqn:E; simpl.
    + rewrite IH. split.
      * intros H g [<- | Hg]; auto.
      * intros H g Hg. apply H. now right.
    + split; [discriminate|]. intros H.
      rewrite (H f (or_introl eq_refl)) in E. discriminate.
Qed.

(** ** The patterns of the script *)

Lemma derives_nil_inv (s : text) (i j : nat) (m m' : marks) :
  derives [] s i m j m' -> j = i /\ m' = m.
Proof. inversion 1; auto. Qed.

Lemma derives_lit_inv (w : text) (r : regex) (s : text) (i j : nat) (m m' : marks) :
  derives (Lit w :: r) s i m j m' ->
  exists s', s = w ++ s' /\ derives r s' (i + length w) m j m'.
Proof. inversion 1; subst; eauto. Qed.

Lemma derives_rep_inv cls lo hi greedy (r : regex) (s : text) (i j : nat)
      (m m' : marks) :
  derives (Rep cls lo hi greedy :: r) s i m j m' ->
  exists u s', s = u ++ s' /\ Forall (fun c => cls c = true) u /\
    lo <= length u /\ within hi (length u) /\
    derives r s' (i + length u) m j m'.
Proof. inversion 1; subst. eexists _, _; eauto. Qed.

Lemma derives_open_inv (g : nat) (r : regex) (s : text) (i j : nat) (m m' : marks) :
  derives (GOpen g :: r) s i m j m' -> derives r s i ((Op g, i) :: m) j m'.
Proof. inversion 1; auto. Qed.

Lemma derives_close_inv (g : nat) (r : regex) (s : text) (i j : nat) (m m' : marks) :
  derives (GClose g :: r) s i m j m' -> derives r s i ((Cl g, i) :: m) j m'.
Proof. inversion 1; auto. Qed.

Lemma slice_at (pre x post : text) (a b : nat) :
  a = length pre -> b = length pre + length x ->
  slice (pre ++ x ++ post) a b = x.
Proof. intros -> ->. apply slice_app_mid. Qed.


Lemma group_children_match (id content : text) (m : rmatch) :
  re_search (re_group_children id) content = Some m ->
  exists pre head children post,
    content = pre ++ head ++ children ++ str ");" ++ post /\
    group content m 0 = head ++ children ++ str ");" /\
    group content m 1 = children.
Proof.
  intros H. apply re_search_sound in H as (pre & rest & -> & Hs & Hd).
  unfold re_group_children in Hd.
  apply derives_lit_inv in Hd as (s1 & -> & Hd).
  apply derives_rep_inv in Hd as (a & s2 & -> & _ & _ & _ & Hd).
  apply derives_lit_inv in Hd as (s3 & -> & Hd).
  apply derives_rep_inv in Hd as (b & s4 & -> & _ & _ & _ & Hd).
  apply derives_lit_inv in Hd as (s5 & -> & Hd).
  apply derives_open_inv in Hd.
  apply derives_rep_inv in Hd as (ch & s6 & -> & _ & _ & _ & Hd).
  apply derives_close_inv in Hd.
  apply derives_lit_inv in Hd as (s7 & -> & Hd).
  apply derives_nil_inv in Hd as [He Hm].
  exists pre, (id ++ a ++ str "{" ++ b ++ str "children = ("), ch, s7.
  split; [now rewrite <- !app_assoc|].
  unfold group, g_start, g_end. rewrite Hs, He, Hm. cbn [mark_pos gmark_eqb Nat.eqb].
  split.
  - replace (pre ++ id ++ a ++ str "{" ++ b ++ str "children = (" ++ ch
               ++ str ");" ++ s7)
      with (pre ++ ((id ++ a ++ str "{" ++ b ++ str "children = (") ++ ch
               ++ str ");") ++ s7) by now rewrite <- !app_assoc.
    apply slice_at; [reflexivity|]. rewrite !length_app. lia.
  - replace (pre ++ id ++ a ++ str "{" ++ b ++ str "children = (" ++ ch
               ++ str ");" ++ s7)
      with ((pre ++ id ++ a ++ str "{" ++ b ++ str "children = (") ++ ch
               ++ str ");" ++ s7) by now rewrite <- !app_assoc.
    apply slice_at; rewrite !length_app; lia.
Qed.

Lemma sources_files_match (content : text) (m : rmatch) :
  re_search re_sources_files content = Some m ->
  exists before files_list post,
    content = before ++ files_list ++ str ");" ++ post /\
    g_start m 2 = length before /\
    g_end m 2 = length before + length files_list /\
    group content m 2 = files_list /\
    files_list <> [] /\
    Forall (fun c => cls_not ")" c = true) files_list /\
    endswith before (str "files = (") = true.
Proof.
  intros H. apply re_search_sound in H as (pre & rest & -> & Hs & Hd).
  unfold re_sources_files in Hd.
  apply derives_open_inv in Hd.
  apply derives_lit_inv in Hd as (s1 & -> & Hd).
  apply derives_rep_inv in Hd as (x & s2 & -> & _ & _ & _ & Hd).
  apply derives_lit_inv in Hd as (s3 & -> & Hd).
  apply derives_close_inv in Hd. apply derives_open_inv in Hd.
  apply derives_rep_inv in Hd as (y & s4 & -> & Hy & Hlen & _ & Hd).
  apply derives_close_inv in Hd. apply derives_open_inv in Hd.
  apply derives_lit_inv in Hd as (s5 & -> & Hd).
  apply derives_close_inv in Hd.
  apply derives_nil_inv in Hd as [He Hm].
  set (before := pre ++ str "/* Sources */ = {" ++ x ++ str "files = (").
  assert (Hb : length before
               = length pre + length (str "/* Sources */ = {") + length x
                 + length (str "files = (")).
  { unfold before. rewrite !length_app. lia. }
  exists before, y, s5.
  assert (Hc : pre ++ str "/* Sources */ = {" ++ x ++ str "files = (" ++ y
                 ++ str ");" ++ s5 = before ++ y ++ str ");" ++ s5).
  { unfold before. now rewrite <- !app_assoc. }
  rewrite Hc. split; [reflexivity|].
  unfold group, g_start, g_end. rewrite Hm. cbn [mark_pos gmark_eqb Nat.eqb].
  split; [lia|]. split; [lia|]. split; [apply slice_at; lia|].
  split; [destruct y; [simpl in Hlen; lia | discriminate]|].
  split; [exact Hy|].
  unfold endswith. apply andb_true_iff. split.
  - apply Nat.leb_le. rewrite Hb. lia.
  - unfold before. rewrite !app_assoc.
    rewrite skipn_app, skipn_all2 by (rewrite !length_app; lia).
    rewrite !length_app.
    match goal with |- startswith (_ ++ skipn ?k _) _ = true =>
      replace k with 0 by lia end.
    apply startswith_spec. exists []. simpl skipn. now rewrite app_nil_r.
Qed.

Lemma nonempty_length (A : Type) (l : list A) : l <> [] <-> 1 <= length l.
Proof. destruct l; simpl; split; intros; try congruence; try lia. Qed.

Lemma main_group_found (content : text) :
  re_search re_main_group content <> None <-> has_main_group content.
Proof.
  split.
  - destruct (re_search re_main_group content) as [m|] eqn:H; [intros _|congruence].
    apply re_search_sound in H as (pre & rest & -> & Hs & Hd).
    unfold re_main_group in Hd.
    apply derives_lit_inv in Hd as (s1 & -> & Hd).
    apply derives_open_inv in Hd.
    apply derives_rep_inv in Hd as (id & s2 & -> & Hid & Hlo & Hhi & Hd).
    apply derives_close_inv in Hd.
    apply derives_lit_inv in Hd as (s3 & -> & Hd).
    exists pre, id, s3. simpl in Hhi. repeat split; auto. lia.
  - intros (pre & id & post & -> & Hlen & Hid).
    eapply (search_from_complete _ pre _ 0 [] _ _). unfold re_main_group.
    apply d_lit, d_open. apply d_rep; [exact Hid | lia | simpl; lia |].
    apply d_close, d_lit, d_nil.
Qed.

Lemma sources_phase_found (content : text) :
  re_search re_sources_phase content <> None <-> has_sources_phase content.
Proof.
  split.
  - destruct (re_search re_sources_phase content) as [m|] eqn:H; [intros _|congruence].
    apply re_search_sound in H as (pre & rest & -> & Hs & Hd).
    unfold re_sources_phase in Hd.
    apply derives_lit_inv in Hd as (s1 & -> & Hd).
    apply derives_rep_inv in Hd as (ws & s2 & -> & Hws & Lws & _ & Hd).
    apply derives_lit_inv in Hd as (s3 & -> & Hd).
    apply derives_rep_inv in Hd as (x & s4 & -> & Hx & Lx & _ & Hd).
    apply derives_lit_inv in Hd as (s5 & -> & Hd).
    apply derives_rep_inv in Hd as (y & s6 & -> & Hy & Ly & _ & Hd).
    apply derives_lit_inv in Hd as (s7 & -> & Hd).
    exists pre, ws, x, y, s7. rewrite !nonempty_length. repeat split; auto.
  - intros (pre & ws & x & y & post & -> & Lws & Hws & Lx & Hx & Ly & Hy).
    rewrite nonempty_length in Lws, Lx, Ly.
    eapply (search_from_complete _ pre _ 0 [] _ _). unfold re_sources_phase.
    apply d_lit. apply d_rep; [exact Hws | exact Lws | exact I |].
    apply d_lit. apply d_rep; [exact Hx | exact Lx | exact I |].
    apply d_lit. apply d_rep; [exact Hy | exact Ly | exact I |].
    apply d_lit, d_nil.
Qed.


(** Where line 45 finds the sources build phase, line 108 finds one too. *)
Lemma sources_phase_files (content : text) :
  re_search re_sources_phase content <> None ->
  re_search re_sources_files content <> None.
Proof.
  rewrite sources_phase_found.
  intros (pre & ws & x & y & post & -> & Lws & Hws & Lx & Hx & Ly & Hy).
  rewrite nonempty_length in Lws, Lx, Ly.
  eapply (search_from_complete _ pre _ 0 [] _ _). unfold re_sources_files.
  apply d_open, d_lit.
  rewrite (app_assoc ws), (app_assoc (ws ++ _)).
  apply d_rep; [| rewrite !length_app; lia | exact I |].
  - apply Forall_app. split; [apply Forall_app; split|]; [| |exact Hx].
    + eapply Forall_impl; [|exact Hws]. intros c Hc. unfold cls_not, chr_in. simpl.
      unfold cls_space in Hc.
      destruct (Ascii.eqb c "}") eqn:E; [|reflexivity].
      apply Ascii.eqb_eq in E. subst c. discriminate.
    + repeat constructor.
  - apply d_lit, d_close, d_open. apply d_rep; [exact Hy | exact Ly | exact I |].
    apply d_close, d_open, d_lit, d_close, d_nil.
Qed.

(** ** The four insertions only insert *)



Lemma skipn_two (a b c : text) :
  skipn (length a + length b) (a ++ b ++ c) = c.
Proof.
  rewrite app_assoc, <- length_app, skipn_app, skipn_all, Nat.sub_diag.
  reflexivity.
Qed.

Lemma add_to_sources_eq (adds : list (text * text * text)) (content : text)
      (m : rmatch) :
  re_search re_sources_files content = Some m ->
  exists before files_list post,
    content = before ++ files_list ++ str ");" ++ post /\
    files_list <> [] /\
    Forall (fun c => cls_not ")" c = true) files_list /\
    endswith before (str "files = (") = true /\
    add_to_sources adds content
    = before ++ files_list ++ [NL]
        ++ join [NL] (map (fun '(_, build_file_id, filename) =>
                             source_entry build_file_id filename) adds)
        ++ str ");" ++ post.
Proof.
  intros H. unfold add_to_sources. rewrite H.
  apply sources_files_match in H
    as (before & fl & post & Hc & Hs & He & Hg & Hne & Hfl & Hb).
  exists before, fl, post. repeat (split; [assumption|]).
  rewrite Hg, Hs, He. rewrite Hc at 1 2.
  rewrite firstn_app, firstn_all, Nat.sub_diag, firstn_O, app_nil_r.
  rewrite skipn_two. now rewrite <- !app_assoc.
Qed.



(** ** After any insertion the text holds every planned name *)

Lemma file_ref_record_name (id name : text) :
  contains (file_ref_record id name) name = true.
Proof.
  unfold file_ref_record. apply contains_app_r, contains_app_r, contains_app_r.
  apply contains_app_l, contains_refl.
Qed.

Lemma build_file_record_name (bid name fid : text) :
  contains (build_file_record bid name fid) name = true.
Proof.
  unfold build_file_record. apply contains_app_r, contains_app_r, contains_app_r.
  apply contains_app_l, contains_refl.
Qed.

Lemma child_entry_name (id name : text) :
  contains (child_entry id name) name = true.
Proof.
  unfold child_entry. apply contains_app_r, contains_app_r, contains_app_r.
  apply contains_app_l, contains_refl.
Qed.

Lemma source_entry_name (id name : text) :
  contains (source_entry id name) name = true.
Proof.
  unfold source_entry. apply contains_app_r, contains_app_r, contains_app_r.
  apply contains_app_l, contains_refl.
Qed.

Lemma add_to_section_records (section : string) (records : list text)
      (content : text) :
  re_search (re_section section) content <> None ->
  forall rec, In rec records ->
    contains (add_to_section section records content) rec = true.
Proof.
  unfold add_to_section.
  destruct (re_search (re_section section) content) as [m|]; [|congruence].
  intros _ rec Hrec.
  eapply contains_trans.
  - apply replace_contains, contains_slice.
  - apply contains_app_r, contains_app_r, contains_app_r, contains_app_l.
    now apply contains_join.
Qed.

Lemma add_to_main_group_names (id : text) (adds : list (text * text * text))
      (content : text) :
  re_search (re_group_children id) content <> None ->
  holds_names adds (add_to_main_group id adds content).
Proof.
  unfold add_to_main_group.
  destruct (re_search (re_group_children id) content) as [m|] eqn:H; [|congruence].
  intros _ e He.
  pose proof (group_children_match _ _ _ H) as (pre & head & ch & post & _ & H0 & H1).
  eapply contains_trans; [apply replace_contains, contains_slice|].
  eapply contains_trans.
  - apply replace_contains. rewrite H0, H1. apply contains_intro.
  - apply contains_app_r, contains_app_r.
    eapply contains_trans.
    + apply contains_join. apply in_map_iff. exists e. split; [reflexivity|exact He].
    + destruct e as [[f b] n]. apply child_entry_name.
Qed.

Lemma add_to_sources_names (adds : list (text * text * text)) (content : text) :
  re_search re_sources_files content <> None ->
  holds_names adds (add_to_sources adds content).
Proof.
  destruct (re_search re_sources_files content) as [m|] eqn:H; [|congruence].
  intros _ e He.
  destruct (@add_to_sources_eq adds _ _ H) as (before & fl & post & _ & _ & _ & _ & ->).
  apply contains_app_r, contains_app_r, contains_app_r, contains_app_l.
  eapply contains_trans.
  - apply contains_join. apply in_map_iff. exists e. split; [reflexivity|exact He].
  - destruct e as [[f b] n]. apply source_entry_name.
Qed.

Lemma search_none_dec (r : regex) (content : text) :
  {re_search r content = None} + {re_search r content <> None}.
Proof. destruct (re_search r content); [right; discriminate | now left]. Qed.

Lemma mutate_names (id content : text) (swift_files : list (text * text))
      (rnd : nat -> N) (n : nat) (c0 : text) :
  re_search re_sources_phase c0 <> None ->
  let p := scan content swift_files rnd n in
  holds_names (files_to_add p) (mutate id p c0).
Proof.
  intros Hsrc p. unfold mutate.
  set (c1 := add_to_section "PBXFileReference" (file_refs_to_add p) c0).
  set (c2 := add_to_section "PBXBuildFile" (build_files_to_add p) c1).
  set (c3 := add_to_main_group id (files_to_add p) c2).
  destruct (search_none_dec re_sources_files c3) as [N4|S4];
    [|now apply add_to_sources_names].
  assert (E4 : add_to_sources (files_to_add p) c3 = c3).
  { unfold add_to_sources. now rewrite N4. }
  rewrite E4.
  destruct (search_none_dec (re_group_children id) c2) as [N3|S3];
    [|now apply add_to_main_group_names].
  assert (E3 : c3 = c2). { unfold c3, add_to_main_group. now rewrite N3. }
  rewrite E3.
  destruct (search_none_dec (re_section "PBXBuildFile") c1) as [N2|S2].
  - assert (E2 : c2 = c1). { unfold c2, add_to_section. now rewrite N2. }
    rewrite E2.
    destruct (search_none_dec (re_section "PBXFileReference") c0) as [N1|S1].
    + assert (E1 : c1 = c0). { unfold c1, add_to_section. now rewrite N1. }
      exfalso. apply (sources_phase_files _ Hsrc). congruence.
    + intros e He. eapply contains_trans.
      * apply (add_to_section_records _ _ _ S1).
        unfold p. rewrite scan_file_refs. apply in_map. exact He.
      * destruct e as [[f b] nm]. apply file_ref_record_name.
  - intros e He. eapply contains_trans.
    + apply (add_to_section_records _ _ _ S2).
      unfold p. rewrite scan_build_files. apply in_map. exact He.
    + destruct e as [[f b] nm]. apply build_file_record_name.
Qed.

(** ** The run *)

Lemma run_cases (disk : text) (swift_files : list (text * text)) (rnd : nat -> N) :
  (re_search re_main_group disk = None /\
   add_files_to_project disk swift_files rnd = (CouldNotFindMainGroup, disk)) \/
  (re_search re_main_group disk <> None /\
   re_search re_sources_phase disk = None /\
   add_files_to_project disk swift_files rnd = (CouldNotFindSourcesBuildPhase, disk)) \/
  (re_search re_main_group disk <> None /\
   re_search re_sources_phase disk <> None /\
   files_to_add (scan disk swift_files rnd 0) = [] /\
   add_files_to_project disk swift_files rnd = (NoFilesToAdd, disk)) \/
  (exists mg,
     re_search re_main_group disk = Some mg /\
     re_search re_sources_phase disk <> None /\
     files_to_add (scan disk swift_files rnd 0) <> [] /\
     add_files_to_project disk swift_files rnd
     = (Added (length (files_to_add (scan disk swift_files rnd 0))),
        mutate (group disk mg 1) (scan disk swift_files rnd 0) disk)).
Proof.
  unfold add_files_to_project.
  destruct (re_search re_main_group disk) as [mg|]; [|now left].
  right. destruct (re_search re_sources_phase disk) as [sm|].
  - right. destruct (files_to_add (scan disk swift_files rnd 0)) as [|e es] eqn:E.
    + left. repeat split; congruence.
    + right. exists mg. repeat split; congruence.
  - left. repeat split; congruence.
Qed.

(** A run that does not report [Added] leaves the disk as it was. *)
Lemma run_without_write (disk : text) (swift_files : list (text * text))
      (rnd : nat -> N) :
  (forall n, fst (add_files_to_project disk swift_files rnd) <> Added n) ->
  snd (add_files_to_project disk swift_files rnd) = disk.
Proof.
  intros H.
  destruct (run_cases disk swift_files rnd)
    as [[_ E] | [(_ & _ & E) | [(_ & _ & _ & E) | (mg & _ & _ & _ & E)]]];
    rewrite E in *; try reflexivity.
  exfalso. eapply H. reflexivity.
Qed.

(** The text written by a run holds the name of every file it added. *)
Lemma written_holds_names (disk : text) (swift_files : list (text * text))
      (rnd : nat -> N) (n : nat) (disk' : text) :
  add_files_to_project disk swift_files rnd = (Added n, disk') ->
  holds_names (files_to_add (scan disk swift_files rnd 0)) disk'.
Proof.
  intros H.
  destruct (run_cases disk swift_files rnd)
    as [[_ E] | [(_ & _ & E) | [(_ & _ & _ & E) | (mg & _ & Hs & _ & E)]]];
    rewrite E in H; try discriminate.
  injection H as _ <-. now apply mutate_names.
Qed.

(** Every planned name is absent from the text the plan was made against. *)
Lemma scan_absent (content : text) (swift_files : list (text * text))
      (rnd : nat -> N) (n : nat) (e : text * text * text) :
  In e (files_to_add (scan content swift_files rnd n)) ->
  is_file_in_project content (entry_name e) = false /\
  In (entry_name e) (map fst swift_files).
Proof.
  intros H. apply (in_map entry_name) in H. rewrite scan_names in H.
  apply filter_In in H as [H1 H2]. apply negb_true_iff in H2. now split.
Qed.


(** The scenario of the specification: one registered file, a candidate
    list with that file and a new one.  Only the new file is planned; the
    written text lists it after the registered file in the main group and
    in the build phase; a second plan is empty. *)
Example registered_and_new_candidate :
  let files := [(str "AppDelegate.swift", str "App/AppDelegate.swift");
                (str "B.swift", str "Core/B.swift")] in
  let run := add_files_to_project sample_project files sample_rnd in
  let file_ref_id := generate_uuid (sample_rnd 0) in
  let build_file_id := generate_uuid (sample_rnd 1) in
  map entry_name (files_to_add (scan sample_project files sample_rnd 0))
  = [str "B.swift"] /\
  fst run = Added 1 /\
  contains (snd run)
    (str "F00000000000000000000001 /* AppDelegate.swift */," ++ [NL]
       ++ str "   " ++ [NL] ++ child_entry file_ref_id (str "B.swift")
       ++ str ");") = true /\
  contains (snd run)
    (str "B00000000000000000000001 /* AppDelegate.swift in Sources */," ++ [NL]
       ++ str "   " ++ [NL] ++ source_entry build_file_id (str "B.swift")
       ++ str ");") = true /\
  contains (snd run) (file_ref_record file_ref_id (str "B.swift")) = true /\
  contains (snd run)
    (build_file_record build_file_id (str "B.swift") file_ref_id) = true /\
  files_to_add (scan (snd run) files sample_rnd 0) = [].
Proof. vm_compute. repeat split. Qed.

(** ** [generate_uuid] *)

Lemma hex_of_length (k : nat) (n : N) : length (hex_of k n) = k.
Proof. induction k; simpl; auto. Qed.

Lemma upper_hex_digit (d : N) :
  (d < 16)%N -> cls_hex_upper (upper_char (hex_digit d)) = true.
Proof.
  intros H. unfold hex_digit.
  assert (L : N.to_nat d < 16) by lia.
  destruct (N.to_nat d) as [|m]; [reflexivity|].
  do 15 (destruct m as [|m]; [reflexivity|]). lia.
Qed.

Lemma hex_of_upper (k : nat) (n : N) :
  Forall (fun c => cls_hex_upper (upper_char c) = true) (hex_of k n).
Proof.
  induction k as [|k IH]; simpl; constructor; [|exact IH].
  apply upper_hex_digit. apply N.mod_lt. discriminate.
Qed.

Lemma Forall_firstn (A : Type) (P : A -> Prop) (n : nat) (l : list A) :
  Forall P l -> Forall P (firstn n l).
Proof.
  intros H. revert n. induction H as [|x l Hx _ IH]; intros [|n]; simpl;
    constructor; auto.
Qed.

(** ** [is_file_in_project] *)

(** An existing PBXFileReference with the candidate's display name is
    enough for the test to succeed. *)
Lemma file_reference_is_registered (content filename : text) :
  has_file_reference content filename = true ->
  is_file_in_project content filename = true.
Proof.
  unfold has_file_reference, is_file_in_project, file_ref_header. intros H.
  eapply contains_trans; [exact H|].
  apply contains_app_r, contains_app_l, contains_refl.
Qed.

(** ** [find_swift_files] *)

Example find_swift_files_sample :
  find_swift_files sample_tree
  = [ (str "App.swift", str "App.swift");
      (str "Model.swift", str "Core/Model.swift");
      (str "Client.swift", str "Core/Net/Client.swift") ].
Proof. reflexivity. Qed.

(** A file below a link or below a directory that cannot be listed is
    not found, though a path leads to it. *)
Example find_swift_files_linked :
  find_swift_files linked_tree
  = [ (str "Top.swift", str "Top.swift");
      (str "Model.swift", str "Core/Model.swift") ] /\
  find_swift_files (Link linked_tree) = find_swift_files linked_tree /\
  file_at linked_tree [str "Shared"] (str "Linked.swift").
Proof.
  split; [reflexivity|]. split; [reflexivity|].
  eexists. split; [left; reflexivity | now left].
Qed.

Lemma basename_cons (c : ascii) (p : text) :
  basename (c :: p)
  = if contains p (str "/") then basename p
    else if Ascii.eqb c "/" then p else c :: p.
Proof. reflexivity. Qed.

Lemma basename_no_sep (name : text) :
  contains name (str "/") = false -> basename name = name.
Proof.
  induction name as [|c name IH]; [reflexivity|]. intros H.
  cbn [contains] in H. apply orb_false_iff in H as [H1 H2].
  rewrite basename_cons, H2.
  destruct (Ascii.eqb c "/") eqn:E; [|reflexivity].
  apply Ascii.eqb_eq in E. subst c. simpl in H1. discriminate.
Qed.

Lemma basename_skip (pre x : text) :
  basename (pre ++ str "/" ++ x) = basename x.
Proof.
  induction pre as [|c pre IH].
  - change ([] ++ str "/" ++ x) with ("/"%char :: x). rewrite basename_cons.
    destruct (contains x (str "/")) eqn:E; [reflexivity|].
    symmetry. now apply basename_no_sep.
  - change ((c :: pre) ++ str "/" ++ x) with (c :: (pre ++ str "/" ++ x)).
    rewrite basename_cons, contains_intro. exact IH.
Qed.

Lemma join_cons (sep p : text) (ps : list text) :
  ps <> [] -> join sep (p :: ps) = p ++ sep ++ join sep ps.
Proof. destruct ps; [contradiction | reflexivity]. Qed.

Lemma basename_relpath (below : list text) (name : text) :
  contains name (str "/") = false -> basename (relpath below name) = name.
Proof.
  intros H. unfold relpath. induction below as [|d below IH].
  - now apply basename_no_sep.
  - change ((d :: below) ++ [name]) with (d :: (below ++ [name])).
    rewrite join_cons by (destruct below; discriminate).
    rewrite basename_skip. exact IH.
Qed.

Lemma dir_nested_ind (P : dir -> Prop) :
  (forall filenames subdirs,
      Forall (fun ns => P (snd ns)) subdirs -> P (Dir filenames subdirs)) ->
  (forall target, P target -> P (Link target)) ->
  (forall hidden, P hidden -> P (Unreadable hidden)) ->
  forall d, P d.
Proof.
  intros H HL HU. fix IH 1. intros [filenames subdirs | target | hidden].
  - apply H.
    induction subdirs as [|[n s] l IHl]; constructor; [apply IH | exact IHl].
  - apply HL, IH.
  - apply HU, IH.
Qed.

Lemma text_eqb_eq (a b : text) : text_eqb a b = true <-> a = b.
Proof.
  unfold text_eqb. rewrite andb_true_iff, Nat.eqb_eq, startswith_spec. split.
  - intros [L [rest ->]]. rewrite length_app in L.
    destruct rest; [now rewrite app_nil_r | simpl in L; lia].
  - intros ->. split; [reflexivity | exists []; now rewrite app_nil_r].
Qed.

Lemma keep_dir_spec (d : text) :
  keep_dir d = true <-> startswith d (str ".") = false /\ d <> str "Build".
Proof.
  unfold keep_dir. rewrite andb_true_iff, !negb_true_iff. split.
  - intros [H1 H2]. split; [exact H1|]. intros E. apply text_eqb_eq in E. congruence.
  - intros [H1 H2]. split; [exact H1|].
    destruct (text_eqb d (str "Build")) eqn:E; [|reflexivity].
    apply text_eqb_eq in E. contradiction.
Qed.

Lemma walk_swift_sound (d : dir) :
  forall below name rel,
    In (name, rel) (walk_swift d below) ->
    endswith name (str ".swift") = true /\
    exists dirs, rel = relpath (below ++ dirs) name /\
                 Forall (fun x => keep_dir x = true) dirs /\
                 walked_at d dirs name.
Proof.
  induction d as [filenames subdirs IH | target _ | hidden _] using dir_nested_ind;
    [|intros below name rel []|intros below name rel []].
  intros below name rel H. cbn [walk_swift] in H.
  apply in_app_or in H as [H | H].
  - apply in_map_iff in H as (f & E & Hf). injection E as -> <-.
    apply filter_In in Hf as [Hin Hsw]. split; [exact Hsw|].
    exists []. rewrite app_nil_r. repeat split; [constructor | exact Hin].
  - induction subdirs as [|[n sub] l IHl]; [contradiction|].
    inversion IH as [|? ? Hsub Hl]; subst.
    destruct (keep_dir n) eqn:K.
    + apply in_app_or in H as [H | H].
      * apply Hsub in H as (Hsw & dirs & -> & Hk & Hat). split; [exact Hsw|].
        exists (n :: dirs). rewrite <- app_assoc. split; [reflexivity|].
        split; [now constructor|]. exists sub. split; [now left | exact Hat].
      * destruct (IHl Hl H) as (Hsw & dirs & -> & Hk & Hat). split; [exact Hsw|].
        exists dirs. repeat split; auto.
        destruct dirs as [|x dirs]; [exact Hat|].
        destruct Hat as (s' & Hin & Hat). exists s'. split; [now right | exact Hat].
    + destruct (IHl Hl H) as (Hsw & dirs & -> & Hk & Hat). split; [exact Hsw|].
      exists dirs. repeat split; auto.
      destruct dirs as [|x dirs]; [exact Hat|].
      destruct Hat as (s' & Hin & Hat). exists s'. split; [now right | exact Hat].
Qed.

(** A path [os.walk] takes is a path of the file system. *)
Lemma walked_file_at (dirs : list text) :
  forall d name, walked_at d dirs name -> file_at d dirs name.
Proof.
  induction dirs as [|x dirs IH]; intros [filenames subdirs | t | h] name H;
    try contradiction.
  - exact H.
  - destruct H as (sub & Hin & H). exists sub. split; [exact Hin | now apply IH].
Qed.

Lemma top_dir_files (d : dir) : dir_files (top_dir d) = dir_files d.
Proof. induction d; simpl; auto. Qed.

Lemma top_dir_subdirs (d : dir) : dir_subdirs (top_dir d) = dir_subdirs d.
Proof. induction d; simpl; auto. Qed.

Lemma top_dir_file_at (d : dir) (dirs : list text) (name : text) :
  file_at (top_dir d) dirs name -> file_at d dirs name.
Proof.
  destruct dirs as [|x dirs]; cbn [file_at].
  - now rewrite top_dir_files.
  - now rewrite top_dir_subdirs.
Qed.

(** ** [add_chat_to_xcode.py] *)

(** Without the records of [FileNode.swift] and the Features group the
    script still writes: the Chat group is defined, with a child that no
    PBXFileReference record defines, and no group lists the Chat group. *)
Example add_chat_without_anchors_still_writes :
  let written := add_chat_view_controller sample_project sample_rnd in
  let chat_vc_uuid := generate_xcode_uuid (sample_rnd 0) in
  let chat_group_uuid := generate_xcode_uuid (sample_rnd 2) in
  re_search file_ref_pattern sample_project = None /\
  re_search features_pattern sample_project = None /\
  contains written (chat_group_def chat_group_uuid chat_vc_uuid) = true /\
  has_file_reference written (str "ChatViewController.swift") = false /\
  contains written (chat_group chat_group_uuid) = false.
Proof. vm_compute. repeat split. Qed.

(** The reference to the Chat group goes in front of the children the
    Features group already has. *)
Example add_chat_group_is_first_child :
  let written := add_chat_view_controller project_with_file_node sample_rnd in
  let chat_group_uuid := generate_xcode_uuid (sample_rnd 2) in
  exists i j,
    find written (chat_group chat_group_uuid) = Some i /\
    find written (str "1D1A2B732C60A1230001A234 /* FileNode.swift */,") = Some j /\
    i < j.
Proof. vm_compute. eexists _, _. repeat split. lia. Qed.

(** ** [re.sub] *)

Lemma derives_span (r : regex) (s : text) (i j : nat) (m m' : marks) :
  derives r s i m j m' -> exists w t, s = w ++ t /\ j = i + length w.
Proof.
  induction 1 as [s i m|w r s i m j m' _ IH|cls lo hi g r u s i m j m' _ _ _ _ IH
                 |g r s i m j m' _ IH|g r s i m j m' _ IH].
  - exists [], s. simpl. split; [reflexivity | lia].
  - destruct IH as (x & t & -> & ->). exists (w ++ x), t.
    rewrite <- app_assoc, length_app. split; [reflexivity | lia].
  - destruct IH as (x & t & -> & ->). exists (u ++ x), t.
    rewrite <- app_assoc, length_app. split; [reflexivity | lia].
  - exact IH.
  - exact IH.
Qed.

Lemma derives_literals (r : regex) (s : text) (i j : nat) (m m' : marks) :
  derives r s i m j m' ->
  forall w, In w (literals r) -> contains s w = true.
Proof.
  induction 1 as [s i m|w r s i m j m' _ IH|cls lo hi g r u s i m j m' _ _ _ _ IH
                 |g r s i m j m' _ IH|g r s i m j m' _ IH]; intros x Hx;
    cbn [literals] in Hx.
  - contradiction.
  - destruct Hx as [<- | Hx].
    + apply contains_app_l, contains_refl.
    + apply contains_app_r, IH, Hx.
  - apply contains_app_r, IH, Hx.
  - apply IH, Hx.
  - apply IH, Hx.
Qed.

Lemma derives_plain_close (g : nat) (body : regex) :
  forallb plain_atom body = true ->
  forall s i m j m',
    derives (body ++ [GClose g]) s i m j m' -> m' = (Cl g, j) :: m.
Proof.
  induction body as [|a body IH]; intros Hp s i m j m' Hd.
  - apply derives_close_inv, derives_nil_inv in Hd as [-> ->]. reflexivity.
  - cbn [forallb] in Hp. apply andb_true_iff in Hp as [Ha Hb].
    destruct a as [w|cls lo hi gr|g'|g']; try discriminate; simpl app in Hd.
    + apply derives_lit_inv in Hd as (s' & _ & Hd). now apply (IH Hb) in Hd.
    + apply derives_rep_inv in Hd as (u & s' & _ & _ & _ & _ & Hd).
      now apply (IH Hb) in Hd.
Qed.

Lemma search_from_split (r : regex) (rest : text) (i : nat) (m : rmatch) :
  search_from r rest i = Some m ->
  exists p w t,
    rest = p ++ w ++ t /\ m_start m = i + length p /\
    m_end m = m_start m + length w /\
    derives r (w ++ t) (m_start m) [] (m_end m) (m_marks m).
Proof.
  intros H. apply search_from_sound in H as (p & rest' & -> & Hs & Hd).
  destruct (derives_span _ _ _ _ _ _ Hd) as (w & t & -> & He).
  now exists p, w, t.
Qed.

(** With a wrapped pattern, [m.group(1)] is the matched text. *)
Lemma wrapped_group (r : regex) (done p w t : text) (m : rmatch) :
  wrapped r ->
  m_start m = length (done ++ p) -> m_end m = m_start m + length w ->
  derives r (w ++ t) (m_start m) [] (m_end m) (m_marks m) ->
  group ((done ++ p) ++ w ++ t) m 1 = w.
Proof.
  intros (body & -> & Hp) Hs He Hd.
  apply derives_open_inv in Hd. apply (derives_plain_close _ _ Hp) in Hd.
  unfold group, g_start, g_end. rewrite Hd. cbn [mark_pos gmark_eqb Nat.eqb].
  apply slice_at; lia.
Qed.

Lemma re_sub_go_subseq (r : regex) (F : text -> text) (content : text) :
  wrapped r -> (forall g, subseq g (F g)) ->
  forall fuel rest i count done,
    content = done ++ rest -> i = length done ->
    subseq rest (re_sub_go fuel r (fun m => F (group content m 1)) rest i count).
Proof.
  intros Hw HF. induction fuel as [|fuel IH]; intros rest i count done Hc Hi;
    cbn [re_sub_go]; [apply subseq_refl|].
  destruct (negb (can_take count)); [apply subseq_refl|].
  destruct (search_from r rest i) as [m|] eqn:Hs; [|apply subseq_refl].
  apply search_from_split in Hs as (p & w & t & -> & Hst & Hen & Hd).
  assert (Hg : group content m 1 = w).
  { rewrite Hc, app_assoc. apply (wrapped_group r); auto.
    rewrite length_app. lia. }
  rewrite Hg.
  replace (m_start m - i) with (length p) by lia.
  replace (m_end m - m_start m) with (length w) by lia.
  rewrite firstn_app, firstn_all, Nat.sub_diag, firstn_O, app_nil_r.
  apply subseq_app; [apply subseq_refl|].
  destruct w as [|c w].
  - cbn [length app]. rewrite skipn_app, skipn_all, Nat.sub_diag. cbn [skipn app].
    apply subseq_ins_app. destruct t as [|c t]; [apply subseq_refl|].
    apply subseq_keep.
    apply (IH t (S (m_start m)) (take_one count) (done ++ p ++ [c])).
    + rewrite Hc. now rewrite <- !app_assoc.
    + rewrite !length_app. simpl. lia.
  - cbn [length].
    replace (m_end m - i) with (length p + length (c :: w))
      by (cbn [length] in *; lia).
    rewrite skipn_two.
    apply subseq_app; [apply HF|].
    apply (IH t (m_end m) (take_one count) (done ++ p ++ c :: w)).
    + rewrite Hc. now rewrite <- !app_assoc.
    + rewrite !length_app. simpl in *. lia.
Qed.

(** A substitution whose replacement keeps the matched text only inserts. *)
Lemma re_sub_subseq (r : regex) (F : text -> text) (content : text)
      (count : option nat) :
  wrapped r -> (forall g, subseq g (F g)) ->
  subseq content (re_sub r (fun c m => F (group c m 1)) content count).
Proof.
  intros Hw HF. unfold re_sub.
  now apply (re_sub_go_subseq r F content Hw HF _ content 0 count []).
Qed.

(** Where the pattern does not occur, [re.sub] returns the text as it is. *)
Lemma re_sub_absent (r : regex) (repl : text -> rmatch -> text) (content : text)
      (count : option nat) :
  re_search r content = None -> re_sub r repl content count = content.
Proof.
  unfold re_sub, re_search. intros H. cbn [re_sub_go]. rewrite H.
  now destruct (negb (can_take count)).
Qed.

(** A pattern cannot occur in a text that lacks part of one of its literal
    pieces. *)
Lemma search_absent_literal (r : regex) (content w key : text) :
  In w (literals r) -> contains w key = true ->
  contains content key = false -> re_search r content = None.
Proof.
  intros Hin Hk Habs.
  destruct (re_search r content) as [m|] eqn:H; [|reflexivity].
  apply re_search_sound in H as (pre & rest & -> & _ & Hd).
  pose proof (derives_literals _ _ _ _ _ _ Hd w Hin) as Hw.
  assert (C : contains (pre ++ rest) key = true).
  { apply contains_app_r. eapply contains_trans; [exact Hw | exact Hk]. }
  congruence.
Qed.

(** A substitution whose replacement is longer than the matched text makes
    the text longer as soon as the pattern occurs. *)
Lemma re_sub_grows (r : regex) (F : text -> text) (content : text)
      (count : option nat) :
  wrapped r -> (forall g, subseq g (F g)) ->
  (forall g, length g < length (F g)) ->
  can_take count = true -> re_search r content <> None ->
  length content < length (re_sub r (fun c m => F (group c m 1)) content count).
Proof.
  intros Hw HF HL Hc Hs. unfold re_sub, re_search in *. cbn [re_sub_go].
  rewrite Hc. cbn [negb].
  destruct (search_from r content 0) as [m|] eqn:E; [|congruence].
  apply search_from_split in E as (p & w & t & Hcont & Hst & Hen & Hd).
  assert (Hg : group content m 1 = w).
  { rewrite Hcont. apply (wrapped_group r [] p w t m Hw); auto. }
  rewrite Hg. subst content.
  replace (m_start m - 0) with (length p) by lia.
  replace (m_end m - m_start m) with (length w) by lia.
  rewrite firstn_app, firstn_all, Nat.sub_diag, firstn_O, app_nil_r.
  pose proof (HL w) as Lw. rewrite !length_app.
  destruct w as [|c w].
  - cbn [length app] in *. rewrite skipn_app, skipn_all, Nat.sub_diag.
    cbn [skipn app]. destruct t as [|c t]; [simpl; lia|].
    assert (Ht : forall fuel,
               subseq t (re_sub_go fuel r (fun m => F (group (p ++ c :: t) m 1)) t
                           (S (m_start m)) (take_one count))).
    { intros fuel. apply (re_sub_go_subseq r F _ Hw HF fuel _ _ _ (p ++ [c])).
      - now rewrite <- app_assoc.
      - rewrite length_app. simpl. lia. }
    match goal with
    | |- context [re_sub_go ?f _ _ _ _ _] =>
        pose proof (subseq_length _ _ (Ht f))
    end.
    cbn [length] in *. lia.
  - cbn [length].
    replace (m_end m - 0) with (length p + length (c :: w))
      by (cbn [length] in *; lia).
    rewrite skipn_two.
    assert (Ht : forall fuel,
               subseq t (re_sub_go fuel r
                           (fun m => F (group (p ++ (c :: w) ++ t) m 1)) t
                           (m_end m) (take_one count))).
    { intros fuel. apply (re_sub_go_subseq r F _ Hw HF fuel _ _ _ (p ++ c :: w)).
      - now rewrite <- app_assoc.
      - rewrite length_app. cbn [length] in *. lia. }
    match goal with
    | |- context [re_sub_go ?f _ _ _ _ _] =>
        pose proof (subseq_length _ _ (Ht f))
    end.
    cbn [length] in *. lia.
Qed.

Lemma re_sub_fixed_iff (r : regex) (F : text -> text) (content : text)
      (count : option nat) :
  wrapped r -> (forall g, subseq g (F g)) ->
  (forall g, length g < length (F g)) -> can_take count = true ->
  re_sub r (fun c m => F (group c m 1)) content count = content <->
  re_search r content = None.
Proof.
  intros Hw HF HL Hc. split.
  - intros H. destruct (re_search r content) as [m|] eqn:E; [|reflexivity].
    assert (Hs : re_search r content <> None) by congruence.
    pose proof (re_sub_grows r F content count Hw HF HL Hc Hs) as L.
    rewrite H in L. lia.
  - apply re_sub_absent.
Qed.

(** Two steps that only insert give the text back exactly when each of
    them, run on the text, gives it back. *)
Lemma compose_fixed (f g : text -> text) (x : text) :
  (forall y, subseq y (f y)) -> (forall y, subseq y (g y)) ->
  g (f x) = x <-> f x = x /\ g x = x.
Proof.
  intros Hf Hg. split.
  - intros H.
    assert (E : f x = x).
    { symmetry. apply subseq_same_length; [apply Hf|].
      pose proof (subseq_length _ _ (Hg (f x))) as L. rewrite H in L. exact L. }
    split; [exact E|]. now rewrite E in H.
  - intros [E1 E2]. now rewrite E1.
Qed.

Lemma subseq_after (g x : text) : subseq g (g ++ x).
Proof. apply subseq_app_r. Qed.

Lemma subseq_before (x y g : text) : subseq g (x ++ y ++ g).
Proof. apply subseq_ins_app, subseq_ins_app, subseq_refl. Qed.

Lemma longer_after (x : text) : x <> [] -> forall g, length g < length (g ++ x).
Proof. intros H g. rewrite length_app. destruct x; [contradiction|simpl; lia]. Qed.

Lemma longer_before (x y : text) :
  y <> [] -> forall g, length g < length (x ++ y ++ g).
Proof.
  intros H g. rewrite !length_app. destruct y; [contradiction|simpl; lia].
Qed.

Ltac wrapped_tac :=
  match goal with
  | |- wrapped ?r => exists (removelast (tl r)); split; reflexivity
  end.

(** The pattern [r] cannot occur in a text without [key], which its first
    literal piece holds. *)
Ltac absent_tac r H :=
  match type of H with
  | contains _ ?key = false =>
      apply (search_absent_literal r _ (hd [] (literals r)) key);
      [cbn; left; reflexivity | reflexivity | exact H]
  end.

(** ** Characters a text lacks *)

Lemma startswith_before_sep (key x y : text) (c : ascii) :
  existsb (Ascii.eqb c) key = false ->
  startswith (x ++ c :: y) key = true -> startswith x key = true.
Proof.
  revert x. induction key as [|k key IH]; intros x Hc H; [reflexivity|].
  cbn [existsb] in Hc. apply orb_false_iff in Hc as [Hk Hc].
  destruct x as [|a x]; cbn [app startswith] in *.
  - apply andb_true_iff in H as [E _]. apply Ascii.eqb_eq in E. subst k.
    rewrite Ascii.eqb_refl in Hk. discriminate.
  - apply andb_true_iff in H as [E H]. rewrite E. cbn [andb].
    now apply IH.
Qed.

(** An occurrence of [key] cannot run over a character that [key] does not
    hold. *)
Lemma contains_sep (key x y : text) (c : ascii) :
  existsb (Ascii.eqb c) key = false ->
  contains (x ++ c :: y) key = true ->
  contains x key = true \/ contains y key = true.
Proof.
  intros Hc. induction x as [|a x IH]; cbn [app contains]; intros H.
  - apply orb_true_iff in H as [H | H]; [|now right].
    left. cbn [contains]. rewrite orb_false_r.
    apply (startswith_before_sep key [] y c Hc H).
  - apply orb_true_iff in H as [H | H].
    + left. apply orb_true_iff. left.
      apply (startswith_before_sep key (a :: x) y c Hc H).
    + destruct (IH H) as [G | G]; [left | now right].
      apply orb_true_iff. now right.
Qed.

Lemma contains_existsb (f : ascii -> bool) (s key : text) :
  contains s key = true -> existsb f key = true -> existsb f s = true.
Proof.
  intros H K. apply contains_spec in H as (pre & post & ->).
  rewrite !existsb_app, K. now rewrite orb_true_r.
Qed.

Lemma generate_uuid_hex (r : N) :
  Forall (fun c => cls_hex_upper c = true) (generate_uuid r).
Proof.
  unfold generate_uuid, upper, uuid_hex.
  apply Forall_map, Forall_firstn, hex_of_upper.
Qed.

Lemma hex_text_lacks (z : ascii) (u : text) :
  cls_hex_upper z = false ->
  Forall (fun c => cls_hex_upper c = true) u ->
  existsb (Ascii.eqb z) u = false.
Proof.
  intros Hz. induction 1 as [|c u Hcu _ IH]; [reflexivity|].
  cbn [existsb]. rewrite IH, orb_false_r.
  destruct (Ascii.eqb_spec z c) as [<- |]; [congruence | reflexivity].
Qed.


(** ** What the last insertion keeps and brings *)




(** ** The substitutions of [add_chat_to_xcode.py] *)

Lemma add_chat_steps (disk : text) (rnd : nat -> N) :
  subseq disk (add_chat_view_controller disk rnd) /\
  (add_chat_view_controller disk rnd = disk <->
   re_search file_ref_pattern disk = None /\
   re_search build_file_pattern disk = None /\
   re_search features_pattern disk = None /\
   re_search groups_end_pattern disk = None /\
   re_search sources_pattern disk = None).
Proof.
  unfold add_chat_view_controller. cbv zeta.
  set (u := generate_xcode_uuid (rnd 0)).
  set (b := generate_xcode_uuid (rnd 1)).
  set (q := generate_xcode_uuid (rnd 2)).
  pose (s1 := fun x => re_sub file_ref_pattern
                         (fun c m => group c m 1 ++ new_file_ref u) x None).
  pose (s2 := fun x => re_sub build_file_pattern
                         (fun c m => group c m 1 ++ new_build_file b u) x None).
  pose (s3 := fun x => re_sub features_pattern
                         (fun c m => group c m 1 ++ chat_group q) x None).
  pose (s4 := fun x => re_sub groups_end_pattern
                         (fun c m => chat_group_def q u ++ [NL] ++ group c m 1)
                         x None).
  pose (s5 := fun x => re_sub sources_pattern
                         (fun c m => group c m 1 ++ new_source_ref b) x (Some 1)).
  change (subseq disk (s5 (s4 (s3 (s2 (s1 disk))))) /\
          (s5 (s4 (s3 (s2 (s1 disk)))) = disk <->
           re_search file_ref_pattern disk = None /\
           re_search build_file_pattern disk = None /\
           re_search features_pattern disk = None /\
           re_search groups_end_pattern disk = None /\
           re_search sources_pattern disk = None)).
  assert (I1 : forall y, subseq y (s1 y)).
  { intros y. apply (re_sub_subseq _ (fun g => g ++ new_file_ref u));
      [wrapped_tac | intros g; apply subseq_after]. }
  assert (I2 : forall y, subseq y (s2 y)).
  { intros y. apply (re_sub_subseq _ (fun g => g ++ new_build_file b u));
      [wrapped_tac | intros g; apply subseq_after]. }
  assert (I3 : forall y, subseq y (s3 y)).
  { intros y. apply (re_sub_subseq _ (fun g => g ++ chat_group q));
      [wrapped_tac | intros g; apply subseq_after]. }
  assert (I4 : forall y, subseq y (s4 y)).
  { intros y. apply (re_sub_subseq _ (fun g => chat_group_def q u ++ [NL] ++ g));
      [wrapped_tac | intros g; apply subseq_before]. }
  assert (I5 : forall y, subseq y (s5 y)).
  { intros y. apply (re_sub_subseq _ (fun g => g ++ new_source_ref b));
      [wrapped_tac | intros g; apply subseq_after]. }
  assert (I12 : forall y, subseq y (s2 (s1 y)))
    by (intros y; eapply subseq_trans; [apply I1 | apply I2]).
  assert (I13 : forall y, subseq y (s3 (s2 (s1 y))))
    by (intros y; eapply subseq_trans; [apply I12 | apply I3]).
  assert (I14 : forall y, subseq y (s4 (s3 (s2 (s1 y)))))
    by (intros y; eapply subseq_trans; [apply I13 | apply I4]).
  split; [eapply subseq_trans; [apply I14 | apply I5]|].
  rewrite (compose_fixed (fun y => s4 (s3 (s2 (s1 y)))) s5 disk I14 I5).
  rewrite (compose_fixed (fun y => s3 (s2 (s1 y))) s4 disk I13 I4).
  rewrite (compose_fixed (fun y => s2 (s1 y)) s3 disk I12 I3).
  rewrite (compose_fixed s1 s2 disk I1 I2).
  unfold s1, s2, s3, s4, s5.
  rewrite (re_sub_fixed_iff file_ref_pattern (fun g => g ++ new_file_ref u));
    [|wrapped_tac | intros g; apply subseq_after
      | apply longer_after; discriminate | reflexivity].
  rewrite (re_sub_fixed_iff build_file_pattern (fun g => g ++ new_build_file b u));
    [|wrapped_tac | intros g; apply subseq_after
      | apply longer_after; discriminate | reflexivity].
  rewrite (re_sub_fixed_iff features_pattern (fun g => g ++ chat_group q));
    [|wrapped_tac | intros g; apply subseq_after
      | apply longer_after; discriminate | reflexivity].
  rewrite (re_sub_fixed_iff groups_end_pattern
             (fun g => chat_group_def q u ++ [NL] ++ g));
    [|wrapped_tac | intros g; apply subseq_before
      | apply longer_before; discriminate | reflexivity].
  rewrite (re_sub_fixed_iff sources_pattern (fun g => g ++ new_source_ref b));
    [|wrapped_tac | intros g; apply subseq_after
      | apply longer_after; discriminate | reflexivity].
  tauto.
Qed.

(** ** The run and its file *)

Lemma on_file_added (stored : text) (swift_files : list (text * text))
      (rnd : nat -> N) (n : nat) (written : text) :
  add_files_to_project_on_file stored swift_files rnd = (Added n, written) <->
  add_files_to_project (read_text stored) swift_files rnd = (Added n, written).
Proof.
  unfold add_files_to_project_on_file, write_text.
  destruct (add_files_to_project (read_text stored) swift_files rnd)
    as [[| | |k] w]; split; intros H; try discriminate; exact H.
Qed.

Lemma on_file_not_added (stored : text) (swift_files : list (text * text))
      (rnd : nat -> N) :
  (forall n, fst (add_files_to_project (read_text stored) swift_files rnd)
             <> Added n) ->
  add_files_to_project_on_file stored swift_files rnd
  = (fst (add_files_to_project (read_text stored) swift_files rnd), stored).
Proof.
  unfold add_files_to_project_on_file. intros H.
  destruct (add_files_to_project (read_text stored) swift_files rnd)
    as [[| | |k] w]; try reflexivity.
  exfalso. now apply (H k).
Qed.

Lemma on_file_report (stored : text) (swift_files : list (text * text))
      (rnd : nat -> N) :
  fst (add_files_to_project_on_file stored swift_files rnd)
  = fst (add_files_to_project (read_text stored) swift_files rnd).
Proof.
  unfold add_files_to_project_on_file.
  now destruct (add_files_to_project (read_text stored) swift_files rnd)
    as [[| | |k] w].
Qed.


(** * The claims *)

(** ** C1 *)





(** ** C2 *)




(** ** C3 *)




(** ** C4 *)

(** C4: the code registers a display name twice.  Two candidates named
    [B.swift] in different folders both fail the membership test, which
    reads the text loaded at line 35, and the written descriptor holds two
    PBXFileReference records with that display name. *)
Lemma same_name_in_two_folders_registered_twice :
  let files := [(str "B.swift", str "Core/B.swift");
                (str "B.swift", str "UI/B.swift")] in
  let run := add_files_to_project sample_project files sample_rnd in
  file_reference_count sample_project (str "B.swift") = 0 /\
  fst run = Added 2 /\
  file_reference_count (snd run) (str "B.swift") = 2.
Proof. vm_compute. repeat split. Qed.

(** ** C5 *)

(** C5, as the code has it.  A candidate counts as registered exactly when
    its name occurs somewhere in the descriptor text; a PBXFileReference
    with that display name is one way for the name to occur, not the only
    one. *)
Theorem is_file_in_project_is_substring_test (pbxproj_content filename : text) :
  (is_file_in_project pbxproj_content filename = true <->
   exists pre post, pbxproj_content = pre ++ filename ++ post) /\
  (has_file_reference pbxproj_content filename = true ->
   is_file_in_project pbxproj_content filename = true).
Proof.
  split.
  - unfold is_file_in_project. apply contains_spec.
  - apply file_reference_is_registered.
Qed.

(** C5, as the spec words it, fails: [Delegate.swift] has no PBXFileReference
    in the sample, yet it counts as registered, because its name is the end
    of [AppDelegate.swift]; the run then plans nothing for it. *)
Lemma substring_counts_as_registered :
  let files := [(str "Delegate.swift", str "UI/Delegate.swift")] in
  has_file_reference sample_project (str "Delegate.swift") = false /\
  is_file_in_project sample_project (str "Delegate.swift") = true /\
  add_files_to_project sample_project files sample_rnd
  = (NoFilesToAdd, sample_project).
Proof. vm_compute. repeat split. Qed.

(** ** C6 *)

(** C6: the code puts a new build phase entry in front of an existing one.
    The list of line 108 ends at the first closing parenthesis, here the
    one inside the name [a);b.swift]; the entry for [New.swift] lands inside
    that entry, before the entry of [c.swift]. *)
Lemma new_entry_before_existing_entry :
  let files := [(str "New.swift", str "Core/New.swift")] in
  let run := add_files_to_project project_with_paren_name files sample_rnd in
  let first_entry := str "B00000000000000000000001 /* a);b.swift in Sources */," in
  let second_entry := str "B00000000000000000000002 /* c.swift in Sources */," in
  let new_entry := source_entry (generate_uuid (sample_rnd 1)) (str "New.swift") in
  fst run = Added 1 /\
  contains project_with_paren_name first_entry = true /\
  contains (snd run) first_entry = false /\
  (exists i j, find (snd run) new_entry = Some i /\
               find (snd run) second_entry = Some j /\ i < j).
Proof.
  vm_compute. repeat split. eexists _, _. repeat split. lia.
Qed.

(** ** C7 *)




(** ** C8 *)

(** C8, as the code has it.  The markers the run requires are the two of
    lines 38-48.  When the text read holds no [mainGroup = <24 hex digits>;]
    or no sources build phase of the shape line 45 asks for, the run reports
    the missing marker and returns; the file keeps its characters.  Nothing
    else is required: with both markers and a candidate to add the run
    reports [Added] and writes, whatever sections the text lacks. *)
Theorem missing_marker_aborts_untouched
        (stored : text) (swift_files : list (text * text)) (rnd : nat -> N) :
  let content := read_text stored in
  let run := add_files_to_project_on_file stored swift_files rnd in
  (~ (has_main_group content /\ has_sources_phase content) ->
   (run = (CouldNotFindMainGroup, stored) /\ ~ has_main_group content) \/
   (run = (CouldNotFindSourcesBuildPhase, stored) /\
    has_main_group content /\ ~ has_sources_phase content)) /\
  (has_main_group content -> has_sources_phase content ->
   files_to_add (scan content swift_files rnd 0) <> [] ->
   exists written,
     run = (Added (length (files_to_add (scan content swift_files rnd 0))),
            written) /\
     written <> content).
Proof.
  intros content run. unfold run. split.
  - intros H.
    destruct (run_cases content swift_files rnd)
      as [[N E] | [(S1 & N & E) | [(S1 & S2 & _) | (mg & S1 & S2 & _)]]].
    + left. split.
      * rewrite on_file_not_added; fold content; rewrite E;
          [reflexivity | intros n; discriminate].
      * rewrite <- main_group_found. intros C. now apply C.
    + right. split; [|split; [now apply main_group_found|]].
      * rewrite on_file_not_added; fold content; rewrite E;
          [reflexivity | intros n; discriminate].
      * rewrite <- sources_phase_found. intros C. now apply C.
    + exfalso. apply H.
      split; [now apply main_group_found | now apply sources_phase_found].
    + exfalso. apply H.
      split; [apply main_group_found; congruence | now apply sources_phase_found].
  - intros Hmg Hsp Hne.
    destruct (run_cases content swift_files rnd)
      as [[N _] | [(_ & N & _) | [(_ & _ & N & _) | (mg & _ & _ & _ & E)]]].
    + apply main_group_found in Hmg. contradiction.
    + apply sources_phase_found in Hsp. contradiction.
    + contradiction.
    + eexists. split; [apply on_file_added; exact E|].
      pose proof (written_holds_names _ _ _ _ _ E) as Hn.
      destruct (files_to_add (scan content swift_files rnd 0)) as [|e es] eqn:Ee;
        [contradiction|].
      assert (He : In e (files_to_add (scan content swift_files rnd 0))).
      { rewrite Ee. now left. }
      intros Eq. apply scan_absent in He as [Habs _].
      rewrite <- Eq in Habs. unfold is_file_in_project in Habs.
      rewrite (Hn e (or_introl eq_refl)) in Habs. discriminate.
Qed.

Lemma missing_marker_aborts_untouched_witness :
  let stored := str "// !$*UTF8*$!" ++ [CR; NL] in
  let files := [(str "A.swift", str "A.swift")] in
  ~ (has_main_group (read_text stored) /\ has_sources_phase (read_text stored)) /\
  add_files_to_project_on_file stored files sample_rnd
  = (CouldNotFindMainGroup, stored).
Proof.
  intros stored files.
  assert (H : ~ (has_main_group (read_text stored)
                 /\ has_sources_phase (read_text stored))).
  { intros [H _]. apply main_group_found in H. apply H. vm_compute. reflexivity. }
  split; [exact H|].
  destruct (proj1 (missing_marker_aborts_untouched stored files sample_rnd) H)
    as [[E _] | [E _]]; [exact E|].
  exfalso. revert E. vm_compute. discriminate.
Defined.

(** C8, as the spec words it, fails for any other marker, the spec's own
    scenario included: on a descriptor without PBXBuildFile section the
    run finds its two markers, reports one file added and writes a text
    with a group child and a build phase entry for [B.swift] and no
    PBXBuildFile record. *)
Lemma missing_section_is_not_fatal :
  let stored := project_without_build_files in
  let run := add_files_to_project_on_file
               stored [(str "B.swift", str "Core/B.swift")] sample_rnd in
  let file_ref_id := generate_uuid (sample_rnd 0) in
  let build_file_id := generate_uuid (sample_rnd 1) in
  contains stored (str "PBXBuildFile section") = false /\
  fst run = Added 1 /\
  length stored < length (snd run) /\
  contains (snd run) (child_entry file_ref_id (str "B.swift")) = true /\
  contains (snd run) (source_entry build_file_id (str "B.swift")) = true /\
  contains (snd run) (str "isa = PBXBuildFile") = false.
Proof. vm_compute. repeat split; lia. Qed.

(** ** C9 *)

(** C9, as the code has it.  [generate_uuid] returns 24 characters, each of
    [0-9A-F], whatever the draw; and the identifiers a run uses are its
    successive draws, two for each added file, taken as drawn: the
    descriptor is not consulted and nothing is drawn again. *)
Theorem generate_uuid_format_without_check :
  (forall r, length (generate_uuid r) = 24 /\
             Forall (fun c => cls_hex_upper c = true) (generate_uuid r)) /\
  (forall r, generate_xcode_uuid r = generate_uuid r) /\
  (forall content swift_files rnd n,
     Forall (fun e => exists k, fst (fst e) = generate_uuid (rnd k) /\
                                snd (fst e) = generate_uuid (rnd (S k)))
            (files_to_add (scan content swift_files rnd n))).
Proof.
  split.
  - intros r. unfold generate_uuid, upper, uuid_hex. split.
    + rewrite length_map, length_firstn, hex_of_length. reflexivity.
    + apply Forall_map, Forall_firstn, hex_of_upper.
  - split; [reflexivity|].
    intros content swift_files rnd. induction swift_files as [|[f p] rest IH];
      intros n; simpl.
    + constructor.
    + destruct (is_file_in_project content f); simpl; [apply IH|].
      constructor; [|apply IH]. exists n. now split.
Qed.

(** C9, as the spec words it, fails: a run that draws what an earlier run
    drew gives [C.swift] the identifier that [B.swift] already has in the
    descriptor, and both records are written. *)
Lemma generated_identifier_already_present :
  let disk1 :=
    snd (add_files_to_project sample_project
           [(str "B.swift", str "Core/B.swift")] sample_rnd) in
  let files2 := [(str "C.swift", str "Core/C.swift")] in
  let id := generate_uuid (sample_rnd 0) in
  let disk2 := snd (add_files_to_project disk1 files2 sample_rnd) in
  contains disk1 (file_ref_record id (str "B.swift")) = true /\
  map (fun e => fst (fst e)) (files_to_add (scan disk1 files2 sample_rnd 0)) = [id] /\
  contains disk2 (file_ref_record id (str "B.swift")) = true /\
  contains disk2 (file_ref_record id (str "C.swift")) = true.
Proof. vm_compute. repeat split. Qed.

(** ** C10 *)

(** C10. Every pair [find_swift_files] returns has a display name that ends
    in [.swift] and is the base name of the pair's relative path; the path
    is the names of the directories from the root down to the file, joined
    by the separator, and none of these directories has a name that starts
    with a dot or is [Build]. *)
Theorem find_swift_files_guarantee
        (root_dir : dir) (display_name relative_path : text) :
  In (display_name, relative_path) (find_swift_files root_dir) ->
  contains display_name (str "/") = false ->
  endswith display_name (str ".swift") = true /\
  basename relative_path = display_name /\
  exists dirs,
    relative_path = join (str "/") (dirs ++ [display_name]) /\
    file_at root_dir dirs display_name /\
    Forall (fun d => startswith d (str ".") = false /\ d <> str "Build") dirs.
Proof.
  intros H Hsep. unfold find_swift_files in H.
  apply walk_swift_sound in H as (Hsw & dirs & -> & Hk & Hat).
  split; [exact Hsw|]. split; [now apply basename_relpath|].
  exists dirs. split; [reflexivity|].
  split; [now apply top_dir_file_at, walked_file_at|].
  eapply Forall_impl; [|exact Hk]. intros d Hd. now apply keep_dir_spec.
Qed.

Lemma find_swift_files_guarantee_witness :
  let name := str "Client.swift" in
  let rel := str "Core/Net/Client.swift" in
  In (name, rel) (find_swift_files sample_tree) /\
  contains name (str "/") = false /\
  endswith name (str ".swift") = true /\
  basename rel = name /\
  exists dirs,
    rel = join (str "/") (dirs ++ [name]) /\
    file_at sample_tree dirs name /\
    Forall (fun d => startswith d (str ".") = false /\ d <> str "Build") dirs.
Proof.
  intros name rel.
  assert (H1 : In (name, rel) (find_swift_files sample_tree)).
  { vm_compute. right. right. left. reflexivity. }
  assert (H2 : contains name (str "/") = false) by reflexivity.
  split; [exact H1|]. split; [exact H2|].
  exact (find_swift_files_guarantee sample_tree name rel H1 H2).
Defined.

(** * Further properties *)

(** ** [add_chat_to_xcode.py] *)

(** [add_chat_view_controller] only inserts text, and the text it writes
    back is the text it read exactly when none of its five patterns occurs
    in it. *)
Theorem add_chat_inserts_only_at_anchors (disk : text) (rnd : nat -> N) :
  subseq disk (add_chat_view_controller disk rnd) /\
  (add_chat_view_controller disk rnd = disk <->
   re_search file_ref_pattern disk = None /\
   re_search build_file_pattern disk = None /\
   re_search features_pattern disk = None /\
   re_search groups_end_pattern disk = None /\
   re_search sources_pattern disk = None).
Proof. exact (add_chat_steps disk rnd). Qed.

(** ** [add_file_preview.py] *)

(** [add_file_preview] only inserts text, and the text it writes back is the
    text it read exactly when none of its four patterns occurs in it. *)
Theorem add_file_preview_inserts_only_at_anchors (disk : text) (rnd : nat -> N) :
  subseq disk (AddFilePreview.add_file_preview disk rnd) /\
  (AddFilePreview.add_file_preview disk rnd = disk <->
   re_search AddFilePreview.file_ref_pattern disk = None /\
   re_search AddFilePreview.build_file_pattern disk = None /\
   re_search AddFilePreview.file_explorer_pattern disk = None /\
   re_search AddFilePreview.sources_pattern disk = None).
Proof.
  unfold AddFilePreview.add_file_preview. cbv zeta.
  set (u := AddFilePreview.generate_xcode_uuid (rnd 0)).
  set (b := AddFilePreview.generate_xcode_uuid (rnd 1)).
  pose (s1 := fun x =>
          re_sub AddFilePreview.file_ref_pattern
                 (fun c m => group c m 1 ++ AddFilePreview.new_file_ref u) x None).
  pose (s2 := fun x =>
          re_sub AddFilePreview.build_file_pattern
                 (fun c m => group c m 1 ++ AddFilePreview.new_build_file b u)
                 x None).
  pose (s3 := fun x =>
          re_sub AddFilePreview.file_explorer_pattern
                 (fun c m => group c m 1 ++ AddFilePreview.new_file_ref_in_group u)
                 x None).
  pose (s4 := fun x =>
          re_sub AddFilePreview.sources_pattern
                 (fun c m => group c m 1 ++ AddFilePreview.new_source_ref b)
                 x None).
  change (subseq disk (s4 (s3 (s2 (s1 disk)))) /\
          (s4 (s3 (s2 (s1 disk))) = disk <->
           re_search AddFilePreview.file_ref_pattern disk = None /\
           re_search AddFilePreview.build_file_pattern disk = None /\
           re_search AddFilePreview.file_explorer_pattern disk = None /\
           re_search AddFilePreview.sources_pattern disk = None)).
  assert (I1 : forall y, subseq y (s1 y)).
  { intros y. apply (re_sub_subseq _ (fun g => g ++ AddFilePreview.new_file_ref u));
      [wrapped_tac | intros g; apply subseq_after]. }
  assert (I2 : forall y, subseq y (s2 y)).
  { intros y.
    apply (re_sub_subseq _ (fun g => g ++ AddFilePreview.new_build_file b u));
      [wrapped_tac | intros g; apply subseq_after]. }
  assert (I3 : forall y, subseq y (s3 y)).
  { intros y.
    apply (re_sub_subseq _ (fun g => g ++ AddFilePreview.new_file_ref_in_group u));
      [wrapped_tac | intros g; apply subseq_after]. }
  assert (I4 : forall y, subseq y (s4 y)).
  { intros y.
    apply (re_sub_subseq _ (fun g => g ++ AddFilePreview.new_source_ref b));
      [wrapped_tac | intros g; apply subseq_after]. }
  assert (I12 : forall y, subseq y (s2 (s1 y)))
    by (intros y; eapply subseq_trans; [apply I1 | apply I2]).
  assert (I13 : forall y, subseq y (s3 (s2 (s1 y))))
    by (intros y; eapply subseq_trans; [apply I12 | apply I3]).
  split; [eapply subseq_trans; [apply I13 | apply I4]|].
  rewrite (compose_fixed (fun y => s3 (s2 (s1 y))) s4 disk I13 I4).
  rewrite (compose_fixed (fun y => s2 (s1 y)) s3 disk I12 I3).
  rewrite (compose_fixed s1 s2 disk I1 I2).
  unfold s1, s2, s3, s4.
  rewrite (re_sub_fixed_iff AddFilePreview.file_ref_pattern
             (fun g => g ++ AddFilePreview.new_file_ref u));
    [|wrapped_tac | intros g; apply subseq_after
      | apply longer_after; discriminate | reflexivity].
  rewrite (re_sub_fixed_iff AddFilePreview.build_file_pattern
             (fun g => g ++ AddFilePreview.new_build_file b u));
    [|wrapped_tac | intros g; apply subseq_after
      | apply longer_after; discriminate | reflexivity].
  rewrite (re_sub_fixed_iff AddFilePreview.file_explorer_pattern
             (fun g => g ++ AddFilePreview.new_file_ref_in_group u));
    [|wrapped_tac | intros g; apply subseq_after
      | apply longer_after; discriminate | reflexivity].
  rewrite (re_sub_fixed_iff AddFilePreview.sources_pattern
             (fun g => g ++ AddFilePreview.new_source_ref b));
    [|wrapped_tac | intros g; apply subseq_after
      | apply longer_after; discriminate | reflexivity].
  tauto.
Qed.

(** A project file that does not mention [FileExplorerViewController.swift]
    is written back as it was read: every pattern of the script names that
    file, and nothing tells the caller that no anchor was found. *)
Theorem add_file_preview_needs_file_explorer (disk : text) (rnd : nat -> N) :
  contains disk (str "FileExplorerViewController.swift") = false ->
  AddFilePreview.add_file_preview disk rnd = disk.
Proof.
  intros H. unfold AddFilePreview.add_file_preview. cbv zeta.
  rewrite (re_sub_absent AddFilePreview.file_ref_pattern);
    [|absent_tac AddFilePreview.file_ref_pattern H].
  rewrite (re_sub_absent AddFilePreview.build_file_pattern);
    [|absent_tac AddFilePreview.build_file_pattern H].
  rewrite (re_sub_absent AddFilePreview.file_explorer_pattern);
    [|absent_tac AddFilePreview.file_explorer_pattern H].
  apply re_sub_absent. absent_tac AddFilePreview.sources_pattern H.
Qed.

Lemma add_file_preview_needs_file_explorer_witness :
  contains sample_project (str "FileExplorerViewController.swift") = false /\
  AddFilePreview.add_file_preview sample_project sample_rnd = sample_project.
Proof.
  assert (H : contains sample_project (str "FileExplorerViewController.swift")
              = false) by (vm_compute; reflexivity).
  split; [exact H|].
  exact (add_file_preview_needs_file_explorer sample_project sample_rnd H).
Defined.

(** ** [add_missing_viewcontrollers.py] *)

(** [add_view_controllers] only inserts text, and the text it writes back is
    the text it read exactly when none of its five patterns occurs in it. *)
Theorem add_view_controllers_inserts_only_at_anchors
        (disk : text) (rnd : nat -> N) :
  subseq disk (AddMissingViewControllers.add_view_controllers disk rnd) /\
  (AddMissingViewControllers.add_view_controllers disk rnd = disk <->
   re_search AddMissingViewControllers.file_ref_pattern disk = None /\
   re_search AddMissingViewControllers.build_file_pattern disk = None /\
   re_search AddMissingViewControllers.features_pattern disk = None /\
   re_search AddMissingViewControllers.groups_end_pattern disk = None /\
   re_search AddMissingViewControllers.sources_pattern disk = None).
Proof.
  unfold AddMissingViewControllers.add_view_controllers. cbv zeta.
  set (eu := AddMissingViewControllers.generate_xcode_uuid (rnd 0)).
  set (eb := AddMissingViewControllers.generate_xcode_uuid (rnd 1)).
  set (eg := AddMissingViewControllers.generate_xcode_uuid (rnd 2)).
  set (tu := AddMissingViewControllers.generate_xcode_uuid (rnd 3)).
  set (tb := AddMissingViewControllers.generate_xcode_uuid (rnd 4)).
  set (tg := AddMissingViewControllers.generate_xcode_uuid (rnd 5)).
  pose (F1 := fun g : text => g ++ AddMissingViewControllers.new_file_refs eu tu).
  pose (F2 := fun g : text =>
                g ++ AddMissingViewControllers.new_build_files eb eu tb tu).
  pose (F3 := fun g : text =>
                g ++ [NL] ++ AddMissingViewControllers.new_groups eg tg).
  pose (F4 := fun g : text =>
                AddMissingViewControllers.groups_def eg eu tg tu ++ [NL] ++ g).
  pose (F5 := fun g : text =>
                g ++ AddMissingViewControllers.new_source_refs eb tb).
  pose (s1 := fun x => re_sub AddMissingViewControllers.file_ref_pattern
                         (fun c m => F1 (group c m 1)) x None).
  pose (s2 := fun x => re_sub AddMissingViewControllers.build_file_pattern
                         (fun c m => F2 (group c m 1)) x None).
  pose (s3 := fun x => re_sub AddMissingViewControllers.features_pattern
                         (fun c m => F3 (group c m 1)) x None).
  pose (s4 := fun x => re_sub AddMissingViewControllers.groups_end_pattern
                         (fun c m => F4 (group c m 1)) x None).
  pose (s5 := fun x => re_sub AddMissingViewControllers.sources_pattern
                         (fun c m => F5 (group c m 1)) x None).
  change (subseq disk (s5 (s4 (s3 (s2 (s1 disk))))) /\
          (s5 (s4 (s3 (s2 (s1 disk)))) = disk <->
           re_search AddMissingViewControllers.file_ref_pattern disk = None /\
           re_search AddMissingViewControllers.build_file_pattern disk = None /\
           re_search AddMissingViewControllers.features_pattern disk = None /\
           re_search AddMissingViewControllers.groups_end_pattern disk = None /\
           re_search AddMissingViewControllers.sources_pattern disk = None)).
  assert (I1 : forall y, subseq y (s1 y)).
  { intros y. apply (re_sub_subseq _ F1);
      [wrapped_tac | intros g; apply subseq_after]. }
  assert (I2 : forall y, subseq y (s2 y)).
  { intros y. apply (re_sub_subseq _ F2);
      [wrapped_tac | intros g; apply subseq_after]. }
  assert (I3 : forall y, subseq y (s3 y)).
  { intros y. apply (re_sub_subseq _ F3);
      [wrapped_tac | intros g; apply subseq_after]. }
  assert (I4 : forall y, subseq y (s4 y)).
  { intros y. apply (re_sub_subseq _ F4);
      [wrapped_tac | intros g; apply subseq_before]. }
  assert (I5 : forall y, subseq y (s5 y)).
  { intros y. apply (re_sub_subseq _ F5);
      [wrapped_tac | intros g; apply subseq_after]. }
  assert (I12 : forall y, subseq y (s2 (s1 y)))
    by (intros y; eapply subseq_trans; [apply I1 | apply I2]).
  assert (I13 : forall y, subseq y (s3 (s2 (s1 y))))
    by (intros y; eapply subseq_trans; [apply I12 | apply I3]).
  assert (I14 : forall y, subseq y (s4 (s3 (s2 (s1 y)))))
    by (intros y; eapply subseq_trans; [apply I13 | apply I4]).
  split; [eapply subseq_trans; [apply I14 | apply I5]|].
  rewrite (compose_fixed (fun y => s4 (s3 (s2 (s1 y)))) s5 disk I14 I5).
  rewrite (compose_fixed (fun y => s3 (s2 (s1 y))) s4 disk I13 I4).
  rewrite (compose_fixed (fun y => s2 (s1 y)) s3 disk I12 I3).
  rewrite (compose_fixed s1 s2 disk I1 I2).
  unfold s1, s2, s3, s4, s5.
  rewrite (re_sub_fixed_iff AddMissingViewControllers.file_ref_pattern F1);
    [|wrapped_tac | intros g; apply subseq_after
      | apply longer_after; discriminate | reflexivity].
  rewrite (re_sub_fixed_iff AddMissingViewControllers.build_file_pattern F2);
    [|wrapped_tac | intros g; apply subseq_after
      | apply longer_after; discriminate | reflexivity].
  rewrite (re_sub_fixed_iff AddMissingViewControllers.features_pattern F3);
    [|wrapped_tac | intros g; apply subseq_after
      | apply longer_after; discriminate | reflexivity].
  rewrite (re_sub_fixed_iff AddMissingViewControllers.groups_end_pattern F4);
    [|wrapped_tac | intros g; apply subseq_before
      | apply longer_before; discriminate | reflexivity].
  rewrite (re_sub_fixed_iff AddMissingViewControllers.sources_pattern F5);
    [|wrapped_tac | intros g; apply subseq_after
      | apply longer_after; discriminate | reflexivity].
  tauto.
Qed.

(** ** [fix_xcode_project.py]: the report *)

Lemma filter_map_length (A B : Type) (f : A -> B) (p : B -> bool) (l : list A) :
  length (filter p (map f l)) = length (filter (fun a => p (f a)) l).
Proof.
  induction l as [|a l IH]; simpl; [reflexivity|].
  destruct (p (f a)); simpl; now rewrite IH.
Qed.

Lemma scan_length (content : text) (swift_files : list (text * text))
      (rnd : nat -> N) (n : nat) :
  length (files_to_add (scan content swift_files rnd n))
  = length (filter (fun f => negb (is_file_in_project content (fst f)))
                   swift_files).
Proof.
  rewrite <- (length_map entry_name), scan_names. apply filter_map_length.
Qed.

(** The run reports [Added n] exactly when both markers of lines 38-48 are
    found and [n], at least one, is the number of candidates whose display
    name does not occur in the text read at line 35; a name listed twice is
    counted twice. *)
Theorem added_report_counts_absent_candidates
        (disk : text) (swift_files : list (text * text)) (rnd : nat -> N)
        (n : nat) :
  fst (add_files_to_project disk swift_files rnd) = Added n <->
  has_main_group disk /\ has_sources_phase disk /\
  n = length (filter (fun f => negb (is_file_in_project disk (fst f)))
                     swift_files) /\
  1 <= n.
Proof.
  rewrite <- (scan_length disk swift_files rnd 0).
  destruct (run_cases disk swift_files rnd)
    as [[N E] | [(_ & N & E) | [(_ & _ & N & E) | (mg & S1 & S2 & Hne & E)]]];
    rewrite E; cbn [fst].
  - split; [discriminate|]. intros (Hmg & _).
    apply main_group_found in Hmg. contradiction.
  - split; [discriminate|]. intros (_ & Hsp & _).
    apply sources_phase_found in Hsp. contradiction.
  - split; [discriminate|]. intros (_ & _ & -> & L). rewrite N in L.
    simpl in L. lia.
  - split.
    + intros H. injection H as <-.
      split; [apply main_group_found; congruence|].
      split; [now apply sources_phase_found|].
      split; [reflexivity | now apply nonempty_length].
    + intros (_ & _ & -> & _). reflexivity.
Qed.

(** ** [find_swift_files]: nothing is missed *)

Lemma walk_swift_complete (dirs : list text) :
  forall d below name,
    Forall (fun x => keep_dir x = true) dirs ->
    walked_at d dirs name -> endswith name (str ".swift") = true ->
    In (name, relpath (below ++ dirs) name) (walk_swift d below).
Proof.
  induction dirs as [|x dirs IH];
    intros [filenames subdirs | t | h] below name Hk Hat Hsw;
    try contradiction; cbn [walk_swift]; apply in_or_app.
  - left. rewrite app_nil_r. apply in_map_iff. exists name.
    split; [reflexivity|]. apply filter_In. split; [exact Hat | exact Hsw].
  - right. destruct Hat as (sub & Hin & Hat).
    inversion Hk as [|? ? Kx Kd]; subst.
    pose proof (IH sub (below ++ [x]) name Kd Hat Hsw) as Hsub.
    rewrite <- app_assoc in Hsub. cbn [app] in Hsub.
    induction subdirs as [|[n s] l IHl]; [contradiction|].
    destruct Hin as [E | Hin].
    + injection E as -> ->. rewrite Kx. apply in_or_app. now left.
    + destruct (keep_dir n); [apply in_or_app; right|]; apply IHl, Hin.
Qed.

(** [find_swift_files] returns exactly the files whose name ends in
    [.swift] and that [os.walk] comes to: below the root through
    directories that line 19 keeps, that are no symbolic links and that can
    be listed, each with the path that leads to it.  A file below a link or
    an unreadable directory is not returned. *)
Theorem find_swift_files_lists_every_kept_swift_file
        (root_dir : dir) (name rel : text) :
  In (name, rel) (find_swift_files root_dir) <->
  endswith name (str ".swift") = true /\
  exists dirs, rel = relpath dirs name /\
               Forall (fun d => keep_dir d = true) dirs /\
               walked_at (top_dir root_dir) dirs name.
Proof.
  unfold find_swift_files. split.
  - intros H. apply walk_swift_sound in H as (Hsw & dirs & -> & Hk & Hat).
    split; [exact Hsw|]. now exists dirs.
  - intros (Hsw & dirs & -> & Hk & Hat).
    apply (walk_swift_complete dirs (top_dir root_dir) [] name Hk Hat Hsw).
Qed.

(** ** [fix_xcode_project.py]: the entry point *)

(** The script writes the project file, and reports [Added], exactly when
    the text read holds both markers of lines 38-48 and [os.walk] comes to
    a Swift file whose name does not occur in that text; otherwise the file
    keeps its characters. *)
Theorem main_leaves_descriptor_iff
        (project_dir : dir) (stored : text) (rnd : nat -> N) :
  let content := read_text stored in
  let run := fix_xcode_project_main project_dir stored rnd in
  ((exists n, fst run = Added n) <->
   has_main_group content /\ has_sources_phase content /\
   exists dirs name,
     Forall (fun d => keep_dir d = true) dirs /\
     walked_at (top_dir project_dir) dirs name /\
     endswith name (str ".swift") = true /\
     is_file_in_project content name = false) /\
  ((forall n, fst run <> Added n) -> snd run = stored).
Proof.
  intros content run. unfold run, fix_xcode_project_main. cbv zeta.
  set (swift_files := find_swift_files project_dir).
  assert (Some_new : files_to_add (scan content swift_files rnd 0) <> [] <->
    exists dirs name,
      Forall (fun d => keep_dir d = true) dirs /\
      walked_at (top_dir project_dir) dirs name /\
      endswith name (str ".swift") = true /\
      is_file_in_project content name = false).
  { split.
    - intros Hne.
      destruct (files_to_add (scan content swift_files rnd 0)) as [|e es] eqn:Ee;
        [contradiction|].
      assert (He : In e (files_to_add (scan content swift_files rnd 0))).
      { rewrite Ee. now left. }
      apply scan_absent in He as [Habs Hin].
      apply in_map_iff in Hin as ([name rel] & Hn & Hin). cbn [fst] in Hn.
      apply walk_swift_sound in Hin as (Hsw & dirs & _ & Hk & Hat).
      rewrite <- Hn in Habs. exists dirs, name. now repeat split.
    - intros (dirs & name & Hk & Hat & Hsw & Habs) Hempty.
      rewrite scan_empty in Hempty.
      rewrite Hempty in Habs; [discriminate|].
      apply in_map_iff. exists (name, relpath dirs name). split; [reflexivity|].
      apply (walk_swift_complete dirs (top_dir project_dir) [] name Hk Hat Hsw). }
  split.
  - rewrite on_file_report. fold content.
    destruct (run_cases content swift_files rnd)
      as [[N E] | [(_ & N & E) | [(S1 & S2 & N & E) | (mg & S1 & S2 & Hne & E)]]];
      rewrite E; cbn [fst].
    + split; [intros [n Hn]; discriminate|]. intros (Hmg & _).
      apply main_group_found in Hmg. contradiction.
    + split; [intros [n Hn]; discriminate|]. intros (_ & Hsp & _).
      apply sources_phase_found in Hsp. contradiction.
    + split; [intros [n Hn]; discriminate|]. intros (_ & _ & Hex).
      apply Some_new in Hex. contradiction.
    + split; [|intros _; eexists; reflexivity]. intros _.
      split; [apply main_group_found; congruence|].
      split; [now apply sources_phase_found | now apply Some_new].
  - intros H.
    assert (H' : forall n, fst (add_files_to_project (read_text stored)
                                  swift_files rnd) <> Added n)
      by (intros n; rewrite <- on_file_report; apply H).
    now rewrite (on_file_not_added _ _ _ H').
Qed.

(** ** [generate_uuid]: what is random in an identifier *)

Lemma uuid_digit_bit (x s k : N) :
  (k < 4)%N -> N.testbit ((x / 2 ^ s) mod 2 ^ 4) k = N.testbit x (k + s).
Proof.
  intros H. rewrite N.mod_pow2_bits_low by exact H. apply N.div_pow2_bits.
Qed.

Lemma uuid4_int_bit (r k : N) :
  N.testbit (uuid4_int r) k
  = (((N.testbit r k && negb (N.testbit (N.shiftl 0xc000 48) k))
      || N.testbit (N.shiftl 0x8000 48) k)
     && negb (N.testbit (N.shiftl 0xf000 64) k))
    || N.testbit (N.shiftl 4 76) k.
Proof.
  unfold uuid4_int. cbv zeta.
  now rewrite N.lor_spec, N.ldiff_spec, N.lor_spec, N.ldiff_spec.
Qed.

Lemma version_digit (r : N) : ((uuid4_int r / 2 ^ 76) mod 2 ^ 4 = 4)%N.
Proof.
  apply N.bits_inj. intros k.
  destruct (N.lt_ge_cases k 4) as [L | L].
  - rewrite uuid_digit_bit by exact L. rewrite uuid4_int_bit.
    assert (C : (k = 0 \/ k = 1 \/ k = 2 \/ k = 3)%N) by lia.
    destruct C as [-> | [-> | [-> | ->]]];
      destruct (N.testbit r _); reflexivity.
  - rewrite N.mod_pow2_bits_high by exact L. symmetry.
    apply (N.mod_pow2_bits_high 4 4 k L).
Qed.

Lemma variant_digit (r : N) :
  let v := ((uuid4_int r / 2 ^ 60) mod 2 ^ 4)%N in
  (v = 8 \/ v = 9 \/ v = 10 \/ v = 11)%N.
Proof.
  intros v.
  assert (U : (v < 16)%N) by (apply N.mod_upper_bound; discriminate).
  assert (B3 : N.testbit v 3 = true).
  { unfold v. rewrite uuid_digit_bit by reflexivity. rewrite uuid4_int_bit.
    destruct (N.testbit r _); reflexivity. }
  assert (B2 : N.testbit v 2 = false).
  { unfold v. rewrite uuid_digit_bit by reflexivity. rewrite uuid4_int_bit.
    destruct (N.testbit r _); reflexivity. }
  clearbody v.
  assert (C : In v [0; 1; 2; 3; 4; 5; 6; 7; 8; 9; 10; 11; 12; 13; 14; 15]%N)
    by (simpl; lia).
  simpl in C.
  repeat (destruct C as [<- | C]; [try discriminate; auto 6|]).
  contradiction.
Qed.

(** Of the 24 characters of an identifier, the thirteenth is always [4]
    (the version of the UUID) and the seventeenth is one of [8], [9], [A],
    [B] (its variant): they carry no randomness. *)
Theorem generate_uuid_fixed_digits (r : N) :
  nth 12 (generate_uuid r) "0"%char = "4"%char /\
  In (nth 16 (generate_uuid r) "0"%char) (str "89AB").
Proof.
  unfold generate_uuid, uuid_hex. cbn [hex_of firstn upper map nth].
  change (16 ^ N.of_nat 19)%N with (2 ^ 76)%N.
  change (16 ^ N.of_nat 15)%N with (2 ^ 60)%N.
  change 16%N with (2 ^ 4)%N.
  rewrite version_digit. split; [reflexivity|].
  destruct (variant_digit r) as [E | [E | [E | E]]]; rewrite E; simpl; auto.
Qed.

Lemma hex_of_firstn (k m : nat) (n : N) :
  firstn k (hex_of (k + m) n) = hex_of k (n / 16 ^ N.of_nat m).
Proof.
  induction k as [|k IH]; [reflexivity|].
  cbn [Nat.add hex_of firstn]. rewrite IH. f_equal. f_equal. f_equal.
  rewrite N.Div0.div_div, Nat2N.inj_add, N.pow_add_r. f_equal. apply N.mul_comm.
Qed.

Lemma uuid4_int_high (r : N) :
  (uuid4_int r / 16 ^ N.of_nat 8)%N
  = N.lor (N.ldiff (N.lor (N.ldiff (r / 2 ^ 32) (N.shiftl 0xc000 16))
                          (N.shiftl 0x8000 16))
                   (N.shiftl 0xf000 32))
          (N.shiftl 4 44).
Proof.
  change (16 ^ N.of_nat 8)%N with (2 ^ 32)%N.
  rewrite <- !N.shiftr_div_pow2. unfold uuid4_int. cbv zeta.
  now rewrite N.shiftr_lor, N.shiftr_ldiff, N.shiftr_lor, N.shiftr_ldiff.
Qed.

(** The last 32 bits of the draw do not reach the identifier: two draws
    that agree above them give the same 24 characters. *)
Theorem generate_uuid_ignores_low_bits (r r' : N) :
  (r / 2 ^ 32 = r' / 2 ^ 32)%N -> generate_uuid r = generate_uuid r'.
Proof.
  intros H. unfold generate_uuid, uuid_hex.
  rewrite !(hex_of_firstn 24 8), !uuid4_int_high, H. reflexivity.
Qed.

Lemma generate_uuid_ignores_low_bits_witness :
  (sample_rnd 0 / 2 ^ 32 = (sample_rnd 0 + 4096) / 2 ^ 32)%N /\
  sample_rnd 0 <> (sample_rnd 0 + 4096)%N /\
  generate_uuid (sample_rnd 0) = generate_uuid (sample_rnd 0 + 4096).
Proof.
  assert (H : (sample_rnd 0 / 2 ^ 32 = (sample_rnd 0 + 4096) / 2 ^ 32)%N)
    by (vm_compute; reflexivity).
  split; [exact H|]. split; [discriminate|].
  exact (generate_uuid_ignores_low_bits (sample_rnd 0) (sample_rnd 0 + 4096) H).
Defined.

(** ** [re.sub] with a literal pattern is [str.replace] *)

Lemma search_literal (w : text) :
  w <> [] ->
  forall rest i,
    match search_from [GOpen 1; Lit w; GClose 1] rest i with
    | Some m =>
        exists p t,
          rest = p ++ w ++ t /\ m_start m = i + length p /\
          m_end m = m_start m + length w /\
          m_marks m = [(Cl 1, m_end m); (Op 1, m_start m)] /\
          forall new, replace_go w new rest 0 = p ++ new ++ replace_go w new t 0
    | None => forall new, replace_go w new rest 0 = rest
    end.
Proof.
  intros Hne. induction rest as [|c s IH]; intros i; cbn [search_from match_here].
  - destruct w as [|d w]; [contradiction|]. cbn [startswith]. reflexivity.
  - destruct (startswith (c :: s) w) eqn:E.
    + destruct (startswith_spec (c :: s) w) as [Hs _].
      destruct (Hs E) as [t Ht]. cbn [m_start m_end m_marks].
      exists [], t. rewrite Ht. cbn [app length]. rewrite Nat.add_0_r.
      repeat split. intros new. now apply replace_go_hit.
    + specialize (IH (S i)).
      destruct (search_from [GOpen 1; Lit w; GClose 1] s (S i)) as [m|].
      * destruct IH as (p & t & -> & Hst & Hen & Hm & Hr).
        exists (c :: p), t. cbn [app length]. repeat split; [lia | exact Hen | exact Hm|].
        intros new. rewrite replace_go_miss by exact E. now rewrite Hr.
      * intros new. rewrite replace_go_miss by exact E. now rewrite IH.
Qed.

Lemma re_sub_go_literal (w : text) (F : text -> text) (content : text) :
  w <> [] ->
  forall fuel rest i done,
    content = done ++ rest -> i = length done -> length rest < fuel ->
    re_sub_go fuel [GOpen 1; Lit w; GClose 1]
              (fun m => F (group content m 1)) rest i None
    = replace_go w (F w) rest 0.
Proof.
  intros Hne. induction fuel as [|fuel IH]; intros rest i done Hc Hi L; [lia|].
  cbn [re_sub_go can_take negb].
  pose proof (search_literal w Hne rest i) as S.
  destruct (search_from [GOpen 1; Lit w; GClose 1] rest i) as [m|].
  - destruct S as (p & t & -> & Hst & Hen & Hm & Hr). rewrite Hr.
    assert (Hg : group content m 1 = w).
    { unfold group, g_start, g_end. rewrite Hm, Hc.
      cbn [mark_pos gmark_eqb Nat.eqb andb]. rewrite app_assoc.
      apply slice_at; rewrite length_app; lia. }
    rewrite Hg.
    replace (m_start m - i) with (length p) by lia.
    rewrite firstn_app, firstn_all, Nat.sub_diag, firstn_O, app_nil_r.
    f_equal. f_equal.
    destruct (m_end m - m_start m) as [|k] eqn:D.
    + destruct w; [contradiction | simpl in Hen; lia].
    + replace (m_end m - i) with (length p + length w) by lia.
      rewrite skipn_two.
      apply (IH t (m_end m) (done ++ p ++ w)).
      * rewrite Hc. now rewrite <- !app_assoc.
      * rewrite !length_app. lia.
      * rewrite !length_app in L. lia.
  - symmetry. apply S.
Qed.

Lemma re_sub_literal (w : text) (F : text -> text) (content : text) :
  w <> [] ->
  re_sub [GOpen 1; Lit w; GClose 1] (fun c m => F (group c m 1)) content None
  = replace content w (F w).
Proof.
  intros Hne. unfold re_sub.
  rewrite (re_sub_go_literal w F content Hne _ content 0 []);
    [|reflexivity | reflexivity | lia].
  destruct w; [contradiction | reflexivity].
Qed.

(** ** [add_missing_viewcontrollers.py] on a project with other identifiers *)

(** Text put in front of every occurrence of [old] brings in no occurrence
    of [key] when it starts with and is followed by characters that [key]
    does not hold, and lacks one that [key] holds. *)
Lemma replace_insert_absent (s old x key : text) (c z : ascii) :
  old <> [] ->
  existsb (Ascii.eqb c) key = false ->
  existsb (Ascii.eqb (hd c x)) key = false ->
  existsb (Ascii.eqb z) key = true ->
  existsb (Ascii.eqb z) x = false ->
  contains s key = false ->
  contains (replace s old (x ++ c :: old)) key = false.
Proof.
  intros Hne Hc Hd Hz Hx.
  assert (Sep : forall a b, contains (a ++ x ++ c :: b) key = true ->
                            contains a key = true \/ contains b key = true).
  { intros a b H. rewrite app_assoc in H.
    apply (contains_sep key _ _ c Hc) in H as [H | H]; [|now right].
    left. destruct x as [|d x]; [now rewrite app_nil_r in H|].
    cbn [hd] in Hd. apply (contains_sep key _ _ d Hd) in H as [H | H]; [exact H|].
    apply (contains_existsb (Ascii.eqb z)) in H; [|exact Hz].
    cbn [existsb] in Hx. apply orb_false_iff in Hx as [_ Hx]. congruence. }
  assert (G : forall t pre, contains (pre ++ t) key = false ->
                            contains (pre ++ replace_go old (x ++ c :: old) t 0) key
                            = false).
  { apply (replace_ind old
             (fun t => forall pre, contains (pre ++ t) key = false ->
                contains (pre ++ replace_go old (x ++ c :: old) t 0) key = false)
             Hne).
    - intros pre H. exact H.
    - intros rest IH pre H. rewrite replace_go_hit by exact Hne.
      destruct (contains (pre ++ (x ++ c :: old)
                            ++ replace_go old (x ++ c :: old) rest 0) key) eqn:E;
        [|reflexivity].
      rewrite <- !app_assoc in E. cbn [app] in E.
      apply Sep in E as [E | E].
      + apply (contains_app_l pre (old ++ rest)) in E. congruence.
      + rewrite (IH old) in E; [discriminate|].
        destruct (contains (old ++ rest) key) eqn:E2; [|reflexivity].
        apply (contains_app_r pre) in E2. congruence.
    - intros d t E IH pre H. rewrite replace_go_miss by exact E.
      change (pre ++ d :: replace_go old (x ++ c :: old) t 0)
        with (pre ++ [d] ++ replace_go old (x ++ c :: old) t 0).
      rewrite app_assoc. apply IH. now rewrite <- app_assoc. }
  intros H. destruct old as [|o old]; [contradiction|].
  apply (G s [] H).
Qed.

(** The three identifiers the script has in its patterns are those one
    project file had.  On a project file that holds none of them no file
    reference, build file, group child or build phase entry is inserted,
    and the definitions of the FileExplorer and Terminal groups are still
    written in front of every end marker of the PBXGroup section. *)
Theorem add_view_controllers_with_other_identifiers
        (disk : text) (rnd : nat -> N) :
  contains disk (str "908A0FC3A7394AEDABD41BAE") = false ->
  contains disk (str "704436B7DE1D469495491C6D") = false ->
  contains disk (str "CAC97E9AD0264C45900DE34A") = false ->
  AddMissingViewControllers.add_view_controllers disk rnd
  = replace disk (str "/* End PBXGroup section */")
      (AddMissingViewControllers.groups_def
         (AddMissingViewControllers.generate_xcode_uuid (rnd 2))
         (AddMissingViewControllers.generate_xcode_uuid (rnd 0))
         (AddMissingViewControllers.generate_xcode_uuid (rnd 5))
         (AddMissingViewControllers.generate_xcode_uuid (rnd 3))
       ++ [NL] ++ str "/* End PBXGroup section */").
Proof.
  intros H1 H2 H3. unfold AddMissingViewControllers.add_view_controllers.
  cbv zeta.
  set (eu := AddMissingViewControllers.generate_xcode_uuid (rnd 0)).
  set (eb := AddMissingViewControllers.generate_xcode_uuid (rnd 1)).
  set (eg := AddMissingViewControllers.generate_xcode_uuid (rnd 2)).
  set (tu := AddMissingViewControllers.generate_xcode_uuid (rnd 3)).
  set (tb := AddMissingViewControllers.generate_xcode_uuid (rnd 4)).
  set (tg := AddMissingViewControllers.generate_xcode_uuid (rnd 5)).
  rewrite (re_sub_absent AddMissingViewControllers.file_ref_pattern);
    [|absent_tac AddMissingViewControllers.file_ref_pattern H1].
  rewrite (re_sub_absent AddMissingViewControllers.build_file_pattern);
    [|absent_tac AddMissingViewControllers.build_file_pattern H2].
  rewrite (re_sub_absent AddMissingViewControllers.features_pattern).
  2:{ apply (search_absent_literal AddMissingViewControllers.features_pattern _
               (str "CAC97E9AD0264C45900DE34A /* Chat */,")
               (str "CAC97E9AD0264C45900DE34A"));
        [cbn; auto 6 | reflexivity | exact H3]. }
  unfold AddMissingViewControllers.groups_end_pattern.
  rewrite (re_sub_literal (str "/* End PBXGroup section */")
             (fun g => AddMissingViewControllers.groups_def eg eu tg tu
                         ++ [NL] ++ g)) by discriminate.
  apply re_sub_absent.
  set (key := str "704436B7DE1D469495491C6D /* ChatViewController.swift in Sources */,").
  apply (search_absent_literal AddMissingViewControllers.sources_pattern _ key key);
    [cbn; auto | apply contains_refl |].
  apply (replace_insert_absent disk _ _ key NL "S"%char);
    [discriminate | reflexivity | reflexivity | reflexivity | |].
  - assert (U : forall r, existsb (Ascii.eqb "S"%char)
                            (AddMissingViewControllers.generate_xcode_uuid r)
                          = false).
    { intros r. apply hex_text_lacks; [reflexivity | apply generate_uuid_hex]. }
    unfold AddMissingViewControllers.groups_def,
      AddMissingViewControllers.group_def, eg, eu, tg, tu.
    rewrite !existsb_app, !U. reflexivity.
  - destruct (contains disk key) eqn:E; [|reflexivity].
    rewrite (contains_trans disk key (str "704436B7DE1D469495491C6D") E eq_refl)
      in H2.
    discriminate.
Qed.

Lemma add_view_controllers_with_other_identifiers_witness :
  contains sample_project (str "908A0FC3A7394AEDABD41BAE") = false /\
  contains sample_project (str "704436B7DE1D469495491C6D") = false /\
  contains sample_project (str "CAC97E9AD0264C45900DE34A") = false /\
  AddMissingViewControllers.add_view_controllers sample_project sample_rnd
  = replace sample_project (str "/* End PBXGroup section */")
      (AddMissingViewControllers.groups_def
         (AddMissingViewControllers.generate_xcode_uuid (sample_rnd 2))
         (AddMissingViewControllers.generate_xcode_uuid (sample_rnd 0))
         (AddMissingViewControllers.generate_xcode_uuid (sample_rnd 5))
         (AddMissingViewControllers.generate_xcode_uuid (sample_rnd 3))
       ++ [NL] ++ str "/* End PBXGroup section */").
Proof.
  assert (H1 : contains sample_project (str "908A0FC3A7394AEDABD41BAE") = false)
    by (vm_compute; reflexivity).
  assert (H2 : contains sample_project (str "704436B7DE1D469495491C6D") = false)
    by (vm_compute; reflexivity).
  assert (H3 : contains sample_project (str "CAC97E9AD0264C45900DE34A") = false)
    by (vm_compute; reflexivity).
  split; [exact H1|]. split; [exact H2|]. split; [exact H3|].
  exact (add_view_controllers_with_other_identifiers
           sample_project sample_rnd H1 H2 H3).
Defined.
